(** * multipartstreamer: a shallow embedding of streamer.go

    The Go package [multipartstreamer] composes a multipart/form-data body
    out of an in-memory header buffer, one deferred payload reader and a
    precomputed closing boundary.  This file embeds the package, together
    with the parts of the Go standard library it calls ([strings.Replacer],
    [textproto.MIMEHeader], [mime/multipart.Writer], [bytes.Buffer],
    [io.MultiReader], [ioutil.NopCloser], [os.File], [filepath.Base]), and
    proves or refutes the properties its specification states.

    Conventions.
    - A Go [string] is a Rocq [string]: both are sequences of 8-bit bytes.
    - A [[]byte], and the content of a buffer or of a stream, is a
      [Bytes] = [list ascii].
    - [int64] values are [Z] with the two's-complement wrap-around written
      out ([wrap64]).
    - A Go [map] that the code ranges over is the list of its entries in the
      order this particular [range] visits them; Go leaves that order
      unspecified, so statements quantify over every such list.
    - Objects reached through pointers or interface values ([*os.File], the
      caller's [io.Reader]) live in a heap, a list indexed by address. *)

From Stdlib Require Import List String Ascii ZArith Lia Bool Arith PeanoNat.
From Stdlib Require Import DecimalString.
From Stdlib Require Import Permutation Sorted OrderedTypeEx.
Import ListNotations.

Open Scope string_scope.
Open Scope list_scope.

Infix "+++" := String.append (right associativity, at level 60).

(** ** Bytes and the characters Rocq literals cannot spell *)

Definition Bytes := list ascii.

Definition CR : ascii := "013"%char.
Definition LF : ascii := "010"%char.
Definition DQUOTE : ascii := "034"%char.
Definition BACKSLASH : ascii := "\"%char.

Definition crlf : string := String CR (String LF EmptyString).
Definition dq : string := String DQUOTE EmptyString.

(** [[]byte(s)] *)
Definition bytes_of (s : string) : Bytes := list_ascii_of_string s.

(** ** Errors

    A Go [error] value is [nil], the sentinel [io.EOF], or some other
    error, identified by its message. *)

Inductive error : Type :=
| NoErr
| EOF
| Err (msg : string).

Definition error_eqb (a b : error) : bool :=
  match a, b with
  | NoErr, NoErr => true
  | EOF, EOF => true
  | Err x, Err y => String.eqb x y
  | _, _ => false
  end.

(** ** int64 arithmetic *)

Definition wrap64 (z : Z) : Z := ((z + 2 ^ 63) mod 2 ^ 64 - 2 ^ 63)%Z.
Definition add64 (x y : Z) : Z := wrap64 (x + y).
Definition in_int64 (z : Z) : Prop := (- 2 ^ 63 <= z < 2 ^ 63)%Z.

(** ** Package strings *)

Module strings.

(** [strings.HasPrefix(s, prefix)] *)
Fixpoint HasPrefix (s prefix : string) : bool :=
  match prefix, s with
  | EmptyString, _ => true
  | String p ps, String c cs => Ascii.eqb p c && HasPrefix cs ps
  | String _ _, EmptyString => false
  end.

(** A [Replacer] built by [strings.NewReplacer(old1, new1, old2, new2, ...)]
    is the list of its (old, new) pairs in argument order. *)
Definition Replacer := list (string * string).

Definition NewReplacer (oldnew : list (string * string)) : Replacer := oldnew.

(** "The old string comparisons are done in argument order": the first
    pair whose non-empty old string starts [s]. *)
Fixpoint lookupOld (r : Replacer) (s : string) : option (string * string) :=
  match r with
  | [] => None
  | (old, new) :: r' =>
      if negb (String.eqb old EmptyString) && HasPrefix s old
      then Some (old, new)
      else lookupOld r' s
  end.

(** "Replacements are performed in the order they appear in the target
    string, without overlapping matches."  [skip] counts the bytes of the
    match in progress that are still to be passed over. *)
Fixpoint replaceFrom (r : Replacer) (skip : nat) (s : string) : string :=
  match s with
  | EmptyString => EmptyString
  | String c rest =>
      match skip with
      | S k => replaceFrom r k rest
      | O =>
          match lookupOld r s with
          | Some (old, new) => new +++ replaceFrom r (String.length old - 1) rest
          | None => String c (replaceFrom r 0 rest)
          end
      end
  end.

Definition Replace (r : Replacer) (s : string) : string := replaceFrom r 0 s.

End strings.

(** ** The package's own quoting (streamer.go, quoteEscaper / escapeQuotes)

    [var quoteEscaper = strings.NewReplacer("\\", "\\\\", `"`, "\\\"")] *)

Definition quoteEscaper : strings.Replacer :=
  strings.NewReplacer
    [ ("\", "\\");
      (dq, "\" +++ dq) ].

Definition escapeQuotes (s : string) : string :=
  strings.Replace quoteEscaper s.

(** ** Package fmt: the verbs the package uses

    [any] is the dynamic value held by a [map[string]any] entry.  The
    constructors name the dynamic types the package distinguishes; every
    other type is [AOther], carrying its type name and its [%v] rendering. *)

Inductive any : Type :=
| AInt64 (n : Z)
| AInt (n : Z)
| AString (s : string)
| ABool (b : bool)
| ANil
| AOther (type_name : string) (rendering : string).

Module fmt.

(** base-10 rendering of an integer, as [%v] and [%d] print it *)
Definition decimal (n : Z) : string := NilZero.string_of_int (Z.to_int n).

(** [fmt.Sprintf("%v", v)] *)
Definition Sprint_v (v : any) : string :=
  match v with
  | AInt64 n => decimal n
  | AInt n => decimal n
  | AString s => s
  | ABool true => "true"
  | ABool false => "false"
  | ANil => "<nil>"
  | AOther _ r => r
  end.

End fmt.

(** ** Package sort: [sort.Strings], byte-wise lexicographic order *)

Module sort.

Fixpoint insert (k : string) (l : list string) : list string :=
  match l with
  | [] => [k]
  | x :: l' => if String.leb k x then k :: l else x :: insert k l'
  end.

Definition Strings (l : list string) : list string :=
  fold_right insert [] l.

End sort.

(** ** Package net/textproto: MIMEHeader *)

Module textproto.

Definition in_range (lo hi : nat) (c : ascii) : bool :=
  Nat.leb lo (nat_of_ascii c) && Nat.leb (nat_of_ascii c) hi.

Definition is_lower (c : ascii) : bool := in_range 97 122 c.
Definition is_upper (c : ascii) : bool := in_range 65 90 c.
Definition is_digit (c : ascii) : bool := in_range 48 57 c.

(** [validHeaderFieldByte]: the token characters of RFC 7230 *)
Definition validHeaderFieldByte (c : ascii) : bool :=
  is_digit c || is_lower c || is_upper c ||
  existsb (Ascii.eqb c)
    [ "!"; "#"; "$"; "%"; "&"; "'"; "*"; "+"; "-"; "."; "^"; "_"; "`"; "|"; "~" ]%char.

Definition to_upper (c : ascii) : ascii := ascii_of_nat (nat_of_ascii c - 32).
Definition to_lower (c : ascii) : ascii := ascii_of_nat (nat_of_ascii c + 32).

(** the second loop of [canonicalMIMEHeaderKey]: upper case for the first
    letter and after each dash, lower case elsewhere *)
Fixpoint canonicalize (upper : bool) (s : string) : string :=
  match s with
  | EmptyString => EmptyString
  | String c rest =>
      let c' :=
        if upper && is_lower c then to_upper c
        else if negb upper && is_upper c then to_lower c
        else c in
      String c' (canonicalize (Ascii.eqb c' "-") rest)
  end.

Fixpoint all_valid (s : string) : bool :=
  match s with
  | EmptyString => true
  | String c rest => validHeaderFieldByte c && all_valid rest
  end.

(** [CanonicalMIMEHeaderKey]: a key holding a byte that is not a token
    character (a space included) is returned unchanged. *)
Definition CanonicalMIMEHeaderKey (s : string) : string :=
  if all_valid s then canonicalize true s else s.

(** [type MIMEHeader map[string][]string] *)
Definition MIMEHeader := list (string * list string).

Definition make : MIMEHeader := [].

Fixpoint assign (k : string) (vs : list string) (h : MIMEHeader) : MIMEHeader :=
  match h with
  | [] => [(k, vs)]
  | (k', vs') :: h' =>
      if String.eqb k k' then (k, vs) :: h' else (k', vs') :: assign k vs h'
  end.

Fixpoint lookup (k : string) (h : MIMEHeader) : list string :=
  match h with
  | [] => []
  | (k', vs) :: h' => if String.eqb k k' then vs else lookup k h'
  end.

(** [h.Set(key, value)]: [h[CanonicalMIMEHeaderKey(key)] = []string{value}] *)
Definition Set_ (key value : string) (h : MIMEHeader) : MIMEHeader :=
  assign (CanonicalMIMEHeaderKey key) [value] h.

Definition keys (h : MIMEHeader) : list string := map fst h.

End textproto.

(** ** Package bytes: Buffer

    A [bytes.Buffer] is represented by its unread portion [b.buf[b.off:]],
    the only part of it that [Len], [Read] and [Write] observe.  Writes to
    a buffer return a nil error (growth beyond memory panics in Go and is
    outside the model). *)

Module bytes.

Definition Buffer := Bytes.

Definition NewBufferString (s : string) : Buffer := bytes_of s.

(** [b.Len()]: "the number of bytes of the unread portion of the buffer" *)
Definition Len (b : Buffer) : nat := List.length b.

Definition Write (p : Bytes) (b : Buffer) : Buffer := b ++ p.

Definition WriteString (s : string) (b : Buffer) : Buffer := b ++ bytes_of s.

(** [b.Read(p)] with [len(p) = n]: an empty buffer answers [io.EOF]
    (nil when [n = 0]); otherwise the next [min n (Len b)] bytes. *)
Definition Read (n : nat) (b : Buffer) : (Bytes * error) * Buffer :=
  match b with
  | [] => (([], if Nat.eqb n 0 then NoErr else EOF), [])
  | _ => ((firstn n b, NoErr), skipn n b)
  end.

End bytes.

(** ** Package mime/multipart: Writer

    The [w] field of a [multipart.Writer] is the [io.Writer] given to
    [NewWriter]; in this package it is always the composer's own
    [*bytes.Buffer], so the methods below take that buffer and return it
    updated.  The [io.Writer] that [CreatePart] returns is the writer's
    [lastpart]. *)

Module multipart.

Record part := mkPart { closed : bool; we : error }.

Record Writer := mkWriter { boundary : string; lastpart : option part }.

(** [&part{mw: w}], the part [CreatePart] creates *)
Definition new_part : part := {| closed := false; we := NoErr |}.

(** [NewWriter]: [random] is the token [randomBoundary()] draws for this
    writer (60 hexadecimal digits read from [crypto/rand]). *)
Definition NewWriter (random : string) : Writer :=
  {| boundary := random; lastpart := None |}.

Definition Boundary (w : Writer) : string := boundary w.

Definition is_alnum (c : ascii) : bool :=
  textproto.is_upper c || textproto.is_lower c || textproto.is_digit c.

(** one iteration of the loop of [SetBoundary]; [last] is [i == end].
    The loop ranges over runes: a byte above 127 starts a rune that is no
    accepted character, so testing bytes gives the same verdict. *)
Definition boundary_char_ok (last : bool) (c : ascii) : bool :=
  is_alnum c ||
  existsb (Ascii.eqb c)
    [ "'"; "("; ")"; "+"; "_"; ","; "-"; "."; "/"; ":"; "="; "?" ]%char ||
  (Ascii.eqb c " " && negb last).

Fixpoint boundary_chars_ok (b : string) : bool :=
  match b with
  | EmptyString => true
  | String c rest =>
      boundary_char_ok (String.eqb rest EmptyString) c && boundary_chars_ok rest
  end.

Definition SetBoundary (b : string) (w : Writer) : Writer * error :=
  match lastpart w with
  | Some _ => (w, Err "mime: SetBoundary called after write")
  | None =>
      if Nat.ltb (String.length b) 1 || Nat.ltb 70 (String.length b)
      then (w, Err "mime: invalid boundary length")
      else if boundary_chars_ok b
           then ({| boundary := b; lastpart := lastpart w |}, NoErr)
           else (w, Err "mime: invalid boundary character")
  end.

(** the header block of [CreatePart]: keys in sorted order, one
    ["key: value\r\n"] line per value *)
Definition header_line (k v : string) : string := k +++ ": " +++ v +++ crlf.

Definition header_lines (h : textproto.MIMEHeader) : string :=
  String.concat EmptyString
    (flat_map (fun k => map (header_line k) (textproto.lookup k h))
              (sort.Strings (textproto.keys h))).

(** [CreatePart]: close the previous part and give up with its write error
    if it has one; otherwise write the boundary line (after a CRLF when a
    part precedes), the header lines and an empty line, and open a new
    part *)
Definition CreatePart (h : textproto.MIMEHeader) (w : Writer) (out : bytes.Buffer)
  : (Writer * bytes.Buffer) * error :=
  let proceed (delim : string) :=
    ((  {| boundary := boundary w;
           lastpart := Some new_part |},
        bytes.WriteString (delim +++ header_lines h +++ crlf) out), NoErr) in
  match lastpart w with
  | Some p =>
      match we p with
      | NoErr => proceed (crlf +++ "--" +++ boundary w +++ crlf)
      | e => (({| boundary := boundary w;
                  lastpart := Some {| closed := true; we := we p |} |}, out), e)
      end
  | None => proceed ("--" +++ boundary w +++ crlf)
  end.

(** [p.Write(d)] for the part [p]; the bytes go to the writer's buffer *)
Definition part_Write (d : Bytes) (p : part) (out : bytes.Buffer)
  : (part * bytes.Buffer) * error :=
  if closed p
  then ((p, out), Err "multipart: can't write to finished part")
  else ((p, bytes.Write d out), NoErr).

(** the writer's own [quoteEscaper] and [escapeQuotes], of which the ones
    in streamer.go are a copy *)
Definition quoteEscaper : strings.Replacer :=
  strings.NewReplacer [ ("\", "\\"); (dq, "\" +++ dq) ].

Definition escapeQuotes (s : string) : string :=
  strings.Replace quoteEscaper s.

Definition CreateFormFile (fieldname filename : string) (w : Writer) (out : bytes.Buffer)
  : (Writer * bytes.Buffer) * error :=
  let h := textproto.make in
  let h := textproto.Set_ "Content-Disposition"
             ("form-data; name=" +++ dq +++ escapeQuotes fieldname +++ dq +++
              "; filename=" +++ dq +++ escapeQuotes filename +++ dq) h in
  let h := textproto.Set_ "Content-Type" "application/octet-stream" h in
  CreatePart h w out.

Definition CreateFormField (fieldname : string) (w : Writer) (out : bytes.Buffer)
  : (Writer * bytes.Buffer) * error :=
  let h := textproto.make in
  let h := textproto.Set_ "Content-Disposition"
             ("form-data; name=" +++ dq +++ escapeQuotes fieldname +++ dq) h in
  CreatePart h w out.

(** [p.Write(d)] for the part [p] that [CreatePart] just returned.  That
    part is the very object the writer's [lastpart] points to, so the part
    as the write leaves it is the writer's [lastpart] afterwards. *)
Definition write_part (d : Bytes) (p : part) (w : Writer) (out : bytes.Buffer)
  : (Writer * bytes.Buffer) * error :=
  let '((p', out'), err) := part_Write d p out in
  (({| boundary := boundary w; lastpart := Some p' |}, out'), err).

Definition WriteField (fieldname value : string) (w : Writer) (out : bytes.Buffer)
  : (Writer * bytes.Buffer) * error :=
  let '((w1, out1), err) := CreateFormField fieldname w out in
  match err with
  | NoErr => write_part (bytes_of value) new_part w1 out1
  | _ => ((w1, out1), err)
  end.

End multipart.

(** ** The composer (streamer.go, type MultipartStreamer) *)

(** an [io.Reader] interface value: [None] is the nil interface, [Some a]
    refers to the object at address [a] of the heap *)
Definition ReaderRef := option nat.

Record MultipartStreamer := mkMS {
  ContentType : string;
  bodyBuffer : bytes.Buffer;
  bodyWriter : multipart.Writer;
  closeBuffer : bytes.Buffer;
  reader : ReaderRef;
  contentLength : Z
}.

Definition MSOption := MultipartStreamer -> MultipartStreamer.

Definition WithBoundary (b : string) : MSOption :=
  fun ms =>
    {| ContentType := ContentType ms;
       bodyBuffer := bodyBuffer ms;
       bodyWriter := fst (multipart.SetBoundary b (bodyWriter ms));
       closeBuffer := closeBuffer ms;
       reader := reader ms;
       contentLength := contentLength ms |}.

(** [New(opts...)]; [random] is the boundary [multipart.NewWriter] draws *)
Definition New (random : string) (opts : list MSOption) : MultipartStreamer :=
  let m := {| ContentType := EmptyString;
              bodyBuffer := [];
              bodyWriter := multipart.NewWriter random;
              closeBuffer := [];
              reader := None;
              contentLength := 0 |} in
  let m := fold_left (fun m fopt => fopt m) opts m in
  let boundary := multipart.Boundary (bodyWriter m) in
  let closeBoundary := crlf +++ "--" +++ boundary +++ "--" +++ crlf in
  {| ContentType := "multipart/form-data; boundary=" +++ boundary;
     bodyBuffer := bodyBuffer m;
     bodyWriter := bodyWriter m;
     closeBuffer := bytes.NewBufferString closeBoundary;
     reader := reader m;
     contentLength := contentLength m |}.

(** the composer after a call on its [bodyWriter] *)
Definition with_writer (m : MultipartStreamer)
    (r : (multipart.Writer * bytes.Buffer) * error) : MultipartStreamer * error :=
  let '((w, out), err) := r in
  ({| ContentType := ContentType m;
      bodyBuffer := out;
      bodyWriter := w;
      closeBuffer := closeBuffer m;
      reader := reader m;
      contentLength := contentLength m |}, err).

Fixpoint WriteFields (fields : list (string * string)) (m : MultipartStreamer)
  : MultipartStreamer * error :=
  match fields with
  | [] => (m, NoErr)
  | (key, value) :: rest =>
      let '(m', err) :=
        with_writer m (multipart.WriteField key value (bodyWriter m) (bodyBuffer m)) in
      match err with
      | NoErr => WriteFields rest m'
      | _ => (m', err)
      end
  end.

Definition set_reader (r : ReaderRef) (m : MultipartStreamer) : MultipartStreamer :=
  {| ContentType := ContentType m;
     bodyBuffer := bodyBuffer m;
     bodyWriter := bodyWriter m;
     closeBuffer := closeBuffer m;
     reader := r;
     contentLength := contentLength m |}.

Definition set_contentLength (size : Z) (m : MultipartStreamer) : MultipartStreamer :=
  {| ContentType := ContentType m;
     bodyBuffer := bodyBuffer m;
     bodyWriter := bodyWriter m;
     closeBuffer := closeBuffer m;
     reader := reader m;
     contentLength := size |}.

Definition WriteReader (key filename : string) (size : Z) (r : ReaderRef)
    (m : MultipartStreamer) : MultipartStreamer * error :=
  let m := set_reader r m in
  let m := set_contentLength size m in
  with_writer m (multipart.CreateFormFile key filename (bodyWriter m) (bodyBuffer m)).

(** a call either returns (the composer it leaves, its error result) or
    panics (the composer as the panic leaves it, the panic message) *)
Inductive call_result : Type :=
| Returns (m : MultipartStreamer) (err : error)
| Panics (m : MultipartStreamer) (msg : string).

(** [m[k]] for a Go map given by its entries; a missing key is [None] *)
Fixpoint map_lookup {V : Type} (k : string) (m : list (string * V)) : option V :=
  match m with
  | [] => None
  | (k', v) :: m' => if String.eqb k k' then Some v else map_lookup k m'
  end.

Definition WriteReaderWithHeaders (key filename : string) (r : ReaderRef)
    (headers : list (string * any)) (m : MultipartStreamer) : call_result :=
  let m := set_reader r m in
  match map_lookup "Content-Length" headers with
  | Some (AInt64 n) =>
      let m := set_contentLength n m in
      let h := textproto.make in
      let h := textproto.Set_ "Content-Disposition"
                 ("form-data; name=" +++ dq +++ escapeQuotes key +++ dq +++
                  "; filename=" +++ dq +++ escapeQuotes filename +++ dq) h in
      let h := fold_left (fun h kv => textproto.Set_ (fst kv) (fmt.Sprint_v (snd kv)) h)
                         headers h in
      let '(m', err) :=
        with_writer m (multipart.CreatePart h (bodyWriter m) (bodyBuffer m)) in
      Returns m' err
  | _ => Panics m "interface conversion: interface {} is not int64"
  end.

Definition WriteReaderWithSize (key filename : string) (size : Z) (r : ReaderRef)
    (m : MultipartStreamer) : call_result :=
  WriteReaderWithHeaders key filename r
    [ ("Content-Type", AString "application/octet-stream");
      ("Content-Length", AInt64 size) ] m.

(** What [io.Copy(part, data)] observes of the reader [data] of [WritePart]:
    the bytes it delivers, and the error that ends them ([NoErr] when the
    reader ends with [io.EOF]). *)
Record CopySource := mkCopySource { src_bytes : Bytes; src_err : error }.

Definition io_Copy_to_part (data : CopySource) (w : multipart.Writer)
    (out : bytes.Buffer) : (multipart.Writer * bytes.Buffer) * error :=
  match src_bytes data with
  | [] => ((w, out), src_err data)
  | d =>
      let '(r, werr) := multipart.write_part d multipart.new_part w out in
      match werr with
      | NoErr => (r, src_err data)
      | _ => (r, werr)
      end
  end.

Definition WritePart (fieldname : string) (data : CopySource)
    (headers : list (string * string)) (m : MultipartStreamer)
  : MultipartStreamer * error :=
  let h := textproto.make in
  let h := textproto.Set_ "Content-Disposition"
             ("form-data; name=" +++ dq +++ escapeQuotes fieldname +++ dq) h in
  let h := fold_left (fun h kv => textproto.Set_ (fst kv) (snd kv) h) headers h in
  let '(m', err) :=
    with_writer m (multipart.CreatePart h (bodyWriter m) (bodyBuffer m)) in
  match err with
  | NoErr => with_writer m' (io_Copy_to_part data (bodyWriter m') (bodyBuffer m'))
  | _ => (m', err)
  end.

Definition Boundary (m : MultipartStreamer) : string :=
  multipart.Boundary (bodyWriter m).

(** [Len]: [m.contentLength + int64(m.bodyBuffer.Len()) + int64(m.closeBuffer.Len())] *)
Definition Len (m : MultipartStreamer) : Z :=
  add64 (add64 (contentLength m) (Z.of_nat (bytes.Len (bodyBuffer m))))
        (Z.of_nat (bytes.Len (closeBuffer m))).

(** ** Package io: the Reader interface

    [Read n v] is one call [v.Read(p)] with [len(p) = n]: the bytes stored
    in [p], the error returned with them, and the reader afterwards. *)

Class Reader (T : Type) := Read : nat -> T -> (Bytes * error) * T.

(** [bytes.Reader] / [strings.Reader]: a read-only view of a byte slice *)
Record SliceReader := mkSliceReader { unread : Bytes }.

#[export] Instance SliceReader_Reader : Reader SliceReader :=
  fun n r =>
    match unread r with
    | [] => (([], EOF), r)
    | s => ((firstn n s, NoErr), {| unread := skipn n s |})
    end.

(** ** Package os: files *)

Module os.

(** a file of the file system: its content, and whether [Stat] on a
    handle of it succeeds *)
Record Node := mkNode { content : Bytes; stat_ok : bool }.

Definition FS := list (string * Node).

(** an open [*os.File] *)
Record File := mkFile { node : Node; pos : nat; closed : bool }.

Definition File_Read (n : nat) (f : File) : (Bytes * error) * File :=
  if closed f then (([], Err "file already closed"), f)
  else if Nat.eqb n 0 then (([], NoErr), f)
  else match skipn (pos f) (content (node f)) with
       | [] => (([], EOF), f)
       | rest =>
           ((firstn n rest, NoErr),
            {| node := node f;
               pos := pos f + List.length (firstn n rest);
               closed := closed f |})
       end.

Definition File_Close (f : File) : File * error :=
  if closed f then (f, Err "file already closed")
  else ({| node := node f; pos := pos f; closed := true |}, NoErr).

(** [fh.Stat()] followed by [stat.Size()] *)
Definition File_Stat_Size (f : File) : Z + error :=
  if closed f then inr (Err "file already closed")
  else if stat_ok (node f) then inl (Z.of_nat (List.length (content (node f))))
  else inr (Err "stat failed").

(** [os.Open(name)] *)
Definition Open (name : string) (fs : FS) : File + error :=
  match map_lookup name fs with
  | Some nd => inl {| node := nd; pos := 0; closed := false |}
  | None => inr (Err "no such file or directory")
  end.

End os.

#[export] Instance File_Reader : Reader os.File := os.File_Read.

(** ** Package path/filepath: Base (slash-separated paths) *)

Module filepath.

Definition is_sep (c : ascii) : bool := Ascii.eqb c "/".

Fixpoint drop_while (f : ascii -> bool) (l : Bytes) : Bytes :=
  match l with
  | [] => []
  | c :: l' => if f c then drop_while f l' else l
  end.

Fixpoint take_while (f : ascii -> bool) (l : Bytes) : Bytes :=
  match l with
  | [] => []
  | c :: l' => if f c then c :: take_while f l' else []
  end.

(** [Base]: strip trailing slashes, keep what follows the last slash;
    ["."] for the empty path, ["/"] for a path of slashes only *)
Definition Base (path : string) : string :=
  match path with
  | EmptyString => "."
  | _ =>
      let stripped := drop_while is_sep (rev (list_ascii_of_string path)) in
      match take_while (fun c => negb (is_sep c)) stripped with
      | [] => "/"
      | last => string_of_list_ascii (rev last)
      end
  end.

End filepath.

(** ** The heap of reader objects *)

Inductive Obj : Type :=
| OFile (f : os.File)
| OReader (T : Type) (impl : Reader T) (v : T).

Definition Heap := list Obj.

Definition Obj_Read (n : nat) (o : Obj) : (Bytes * error) * Obj :=
  match o with
  | OFile f => let '(r, f') := Read n f in (r, OFile f')
  | OReader T impl v => let '(r, v') := Read n v in (r, OReader T impl v')
  end.

Fixpoint heap_update (a : nat) (o : Obj) (h : Heap) : Heap :=
  match h, a with
  | [], _ => []
  | _ :: h', O => o :: h'
  | x :: h', S a' => x :: heap_update a' o h'
  end.

(** allocation returns the address of the new object *)
Definition heap_alloc (o : Obj) (h : Heap) : Heap * nat := (h ++ [o], List.length h).

Definition file_is_open (o : Obj) : bool :=
  match o with
  | OFile f => negb (os.closed f)
  | OReader _ _ _ => false
  end.

(** ** WriteFile (streamer.go) *)

Record World := mkWorld { fs : os.FS; heap : Heap }.

Definition WriteFile (key filename : string) (w : World) (m : MultipartStreamer)
  : World * (MultipartStreamer * error) :=
  match os.Open filename (fs w) with
  | inr err => (w, (m, err))
  | inl file =>
      let '(h, fh) := heap_alloc (OFile file) (heap w) in
      let w := {| fs := fs w; heap := h |} in
      match os.File_Stat_Size file with
      | inr err => (w, (m, err))
      | inl size => (w, WriteReader key (filepath.Base filename) size (Some fh) m)
      end
  end.

(** ** Package io: MultiReader, and ioutil.NopCloser

    [GetReader] hands [io.MultiReader] the composer's own two buffers (by
    pointer) and the interface value of its [reader] field.  A source of
    the multi-reader is therefore a reference: to [m.bodyBuffer], to
    [m.closeBuffer], or the [ReaderRef] copied from [m.reader]. *)

Inductive Src : Type :=
| SrcBody
| SrcPayload (r : ReaderRef)
| SrcClose.

(** the state a read acts on: the heap and the composer *)
Record Store := mkStore { st_heap : Heap; st_ms : MultipartStreamer }.

Definition set_bodyBuffer (b : bytes.Buffer) (m : MultipartStreamer) : MultipartStreamer :=
  {| ContentType := ContentType m;
     bodyBuffer := b;
     bodyWriter := bodyWriter m;
     closeBuffer := closeBuffer m;
     reader := reader m;
     contentLength := contentLength m |}.

Definition set_closeBuffer (b : bytes.Buffer) (m : MultipartStreamer) : MultipartStreamer :=
  {| ContentType := ContentType m;
     bodyBuffer := bodyBuffer m;
     bodyWriter := bodyWriter m;
     closeBuffer := b;
     reader := reader m;
     contentLength := contentLength m |}.

(** [src.Read(p)], [len(p) = n].  [None] is the run-time panic of a method
    call through a nil interface value (an address outside the heap, which
    no Go program can hold, is treated alike). *)
Definition Src_Read (n : nat) (s : Store) (src : Src) : option ((Bytes * error) * Store) :=
  match src with
  | SrcBody =>
      let '(r, b) := bytes.Read n (bodyBuffer (st_ms s)) in
      Some (r, {| st_heap := st_heap s; st_ms := set_bodyBuffer b (st_ms s) |})
  | SrcClose =>
      let '(r, b) := bytes.Read n (closeBuffer (st_ms s)) in
      Some (r, {| st_heap := st_heap s; st_ms := set_closeBuffer b (st_ms s) |})
  | SrcPayload None => None
  | SrcPayload (Some a) =>
      match nth_error (st_heap s) a with
      | None => None
      | Some o =>
          let '(r, o') := Obj_Read n o in
          Some (r, {| st_heap := heap_update a o' (st_heap s); st_ms := st_ms s |})
      end
  end.

(** one underlying call made by the multi-reader *)
Inductive Event : Type :=
| EvRead (src : Src) (p : Bytes) (e : error)
| EvNilCall (src : Src).

Definition MultiReader := list Src.

Record ReadResult := mkReadResult {
  rr_ret : option (Bytes * error);   (* [None]: the call panicked *)
  rr_store : Store;
  rr_readers : MultiReader;
  rr_events : list Event
}.

(** [multiReader.Read], [len(p) = n].

    [for len(mr.readers) > 0 {
       n, err = mr.readers[0].Read(p)
       if err == EOF { mr.readers = mr.readers[1:] }
       if n > 0 || err != EOF {
         if err == EOF && len(mr.readers) > 0 { err = nil }
         return }
     }
     return 0, EOF]

    The flattening of a nested multi-reader happens only for a single
    remaining reader; here that reader is [m.closeBuffer], never a
    multi-reader, so the step is omitted. *)
Fixpoint multiReader_Read (n : nat) (s : Store) (readers : MultiReader) : ReadResult :=
  match readers with
  | [] => {| rr_ret := Some ([], EOF); rr_store := s; rr_readers := [];
             rr_events := [] |}
  | src :: rest =>
      match Src_Read n s src with
      | None => {| rr_ret := None; rr_store := s; rr_readers := readers;
                   rr_events := [EvNilCall src] |}
      | Some ((p, EOF), s') =>
          match p with
          | [] =>
              let r := multiReader_Read n s' rest in
              {| rr_ret := rr_ret r; rr_store := rr_store r;
                 rr_readers := rr_readers r;
                 rr_events := EvRead src p EOF :: rr_events r |}
          | _ =>
              {| rr_ret := Some (p, match rest with [] => EOF | _ => NoErr end);
                 rr_store := s'; rr_readers := rest;
                 rr_events := [EvRead src p EOF] |}
          end
      | Some ((p, e), s') =>
          {| rr_ret := Some (p, e); rr_store := s'; rr_readers := readers;
             rr_events := [EvRead src p e] |}
      end
  end.

(** [GetReader]: [ioutil.NopCloser(io.MultiReader(m.bodyBuffer, m.reader, m.closeBuffer))] *)
Definition MultiReader_of (m : MultipartStreamer) : MultiReader :=
  [SrcBody; SrcPayload (reader m); SrcClose].

Record nopCloser := NopCloser { Reader_ : MultiReader }.

Definition GetReader (m : MultipartStreamer) : nopCloser :=
  NopCloser (MultiReader_of m).

(** [nopCloser.Read] is the embedded reader's [Read] *)
Definition nopCloser_Read (n : nat) (s : Store) (rc : nopCloser) : ReadResult :=
  multiReader_Read n s (Reader_ rc).

(** [func (nopCloser) Close() error { return nil }] *)
Definition nopCloser_Close (s : Store) (rc : nopCloser) : (Store * nopCloser) * error :=
  ((s, rc), NoErr).

(** ** The consumer

    A consumer ([io.Copy], [io.ReadAll], an HTTP transport) calls [Read]
    until it returns an error; [io.EOF] ends the stream normally.  [reqs]
    lists the buffer sizes of its successive calls. *)

Inductive Status : Type :=
| Reading                 (* no error yet: the consumer would read on *)
| Drained                 (* [io.EOF] was returned *)
| Failed (msg : string)   (* another error was returned *)
| Panicked.               (* a read panicked *)

Record Run := mkRun {
  run_out : Bytes;            (* the bytes received, in order *)
  run_trace : list Event;     (* the underlying calls, in order *)
  run_status : Status;
  run_store : Store;
  run_stream : nopCloser
}.

Fixpoint ReadAll (reqs : list nat) (s : Store) (rc : nopCloser) : Run :=
  match reqs with
  | [] => {| run_out := []; run_trace := []; run_status := Reading;
             run_store := s; run_stream := rc |}
  | n :: reqs' =>
      let r := nopCloser_Read n s rc in
      let stop (p : Bytes) (st : Status) :=
        {| run_out := p; run_trace := rr_events r; run_status := st;
           run_store := rr_store r; run_stream := NopCloser (rr_readers r) |} in
      match rr_ret r with
      | None => stop [] Panicked
      | Some (p, NoErr) =>
          let k := ReadAll reqs' (rr_store r) (NopCloser (rr_readers r)) in
          {| run_out := p ++ run_out k; run_trace := rr_events r ++ run_trace k;
             run_status := run_status k; run_store := run_store k;
             run_stream := run_stream k |}
      | Some (p, EOF) => stop p Drained
      | Some (p, Err msg) => stop p (Failed msg)
      end
  end.

(** the sizes of the first [k] calls of a consumer whose [i]-th call has a
    buffer of [size i] bytes *)
Definition requests (size : nat -> nat) (k : nat) : list nat := map size (seq 0 k).


(** ** Build sequences *)

(** the build-phase calls that copy small parts into the header buffer *)
Inductive BuildOp : Type :=
| OpWriteFields (fields : list (string * string))
| OpWritePart (fieldname : string) (data : CopySource) (headers : list (string * string)).

Definition run_op (op : BuildOp) (m : MultipartStreamer) : MultipartStreamer * error :=
  match op with
  | OpWriteFields fields => WriteFields fields m
  | OpWritePart fieldname data headers => WritePart fieldname data headers m
  end.

(** the composer after a sequence of build calls (a caller may go on after
    a call returned an error, so the errors are not consulted) *)
Definition build (ops : list BuildOp) (m : MultipartStreamer) : MultipartStreamer :=
  fold_left (fun m op => fst (run_op op m)) ops m.

(** the three ways to register the deferred payload *)
Inductive Registration : Type :=
| RegReader (key filename : string) (size : Z) (r : ReaderRef)
| RegWithSize (key filename : string) (size : Z) (r : ReaderRef)
| RegWithHeaders (key filename : string) (r : ReaderRef) (headers : list (string * any)).

Definition register (reg : Registration) (m : MultipartStreamer) : call_result :=
  match reg with
  | RegReader key filename size r =>
      let '(m', err) := WriteReader key filename size r m in Returns m' err
  | RegWithSize key filename size r => WriteReaderWithSize key filename size r m
  | RegWithHeaders key filename r headers => WriteReaderWithHeaders key filename r headers m
  end.

(** the source a registration hands over *)
Definition reg_reader (reg : Registration) : ReaderRef :=
  match reg with
  | RegReader _ _ _ r => r
  | RegWithSize _ _ _ r => r
  | RegWithHeaders _ _ r _ => r
  end.

(** the length a registration declares, when it declares one as [int64] *)
Definition reg_size (reg : Registration) : option Z :=
  match reg with
  | RegReader _ _ size _ => Some size
  | RegWithSize _ _ size _ => Some size
  | RegWithHeaders _ _ _ headers =>
      match map_lookup "Content-Length" headers with
      | Some (AInt64 n) => Some n
      | _ => None
      end
  end.

(** ** Vocabulary of the properties *)

(** one answer [(p, e)] of a reader that still has [data] to deliver *)
Definition step_ok (p : Bytes) (e : error) (data : Bytes) : Prop :=
  match e with
  | NoErr => firstn (List.length p) data = p
  | EOF => data = p
  | Err _ => False
  end.

Section Delivery.

Variable S : Type.
Variable rd : nat -> S -> option ((Bytes * error) * S).

(** [Delivers s data]: read with buffers of any positive sizes, the reader
    in state [s] hands out exactly the bytes [data], in order and in
    finitely many calls, then signals [io.EOF]; it never fails or panics. *)
Inductive Delivers : S -> Bytes -> Prop :=
| Delivers_intro (s : S) (data : Bytes) :
    (forall n, 0 < n ->
       exists p e s', rd n s = Some ((p, e), s') /\ step_ok p e data) ->
    (forall n p s', 0 < n -> rd n s = Some ((p, NoErr), s') ->
       Delivers s' (skipn (List.length p) data)) ->
    Delivers s data.

End Delivery.

Arguments Delivers {S} rd s data.

(** a payload source that yields exactly [data] *)
Definition Yields (o : Obj) (data : Bytes) : Prop :=
  Delivers (fun n o => Some (Obj_Read n o)) o data.

(** the composed stream as a reader: its state is the store and the
    multi-reader's remaining sources *)
Definition stream_Read (n : nat) (st : Store * MultiReader)
  : option ((Bytes * error) * (Store * MultiReader)) :=
  let r := multiReader_Read n (fst st) (snd st) in
  match rr_ret r with
  | Some pe => Some (pe, (rr_store r, rr_readers r))
  | None => None
  end.

(** the bytes a trace shows coming out of the sources selected by [sel] *)
Fixpoint emitted (sel : Src -> bool) (tr : list Event) : Bytes :=
  match tr with
  | [] => []
  | EvRead src p _ :: tr' => if sel src then p ++ emitted sel tr' else emitted sel tr'
  | EvNilCall _ :: tr' => emitted sel tr'
  end.

Definition is_body (s : Src) : bool := match s with SrcBody => true | _ => false end.
Definition is_close (s : Src) : bool := match s with SrcClose => true | _ => false end.
Definition is_payload (s : Src) : bool :=
  match s with SrcPayload _ => true | _ => false end.

(** A monitor of the ordering of a trace.  It holds the header bytes not
    yet handed out and whether the payload source has answered [io.EOF]. *)
Record Monitor := mkMonitor { hdr_left : Bytes; payload_eof : bool }.

Definition is_EOF (e : error) : bool := match e with EOF => true | _ => false end.

(** - the header buffer hands out the next pending header bytes;
    - the payload source is called only when no header byte is pending;
    - the trailer buffer is called only after the payload's [io.EOF]. *)
Definition monitor_step (mo : Monitor) (ev : Event) : option Monitor :=
  match ev with
  | EvRead SrcBody p _ =>
      if list_eq_dec ascii_dec (firstn (List.length p) (hdr_left mo)) p
      then Some {| hdr_left := skipn (List.length p) (hdr_left mo);
                   payload_eof := payload_eof mo |}
      else None
  | EvRead (SrcPayload _) _ e =>
      match hdr_left mo with
      | [] => Some {| hdr_left := []; payload_eof := payload_eof mo || is_EOF e |}
      | _ => None
      end
  | EvNilCall _ =>
      match hdr_left mo with
      | [] => Some mo
      | _ => None
      end
  | EvRead SrcClose _ _ => if payload_eof mo then Some mo else None
  end.

Fixpoint monitor_run (mo : Monitor) (tr : list Event) : option Monitor :=
  match tr with
  | [] => Some mo
  | ev :: tr' =>
      match monitor_step mo ev with
      | Some mo' => monitor_run mo' tr'
      | None => None
      end
  end.

(** [ordered header tr]: the trace [tr] of a stream whose header buffer
    held [header] respects the order header, payload, trailer *)
Definition ordered (header : Bytes) (tr : list Event) : bool :=
  match monitor_run {| hdr_left := header; payload_eof := false |} tr with
  | Some _ => true
  | None => false
  end.

(** the quoting as the specification words it: a backslash becomes two
    backslashes, a double quote becomes backslash double-quote, every other
    byte stays as it is *)
Definition quoted_byte (c : ascii) : string :=
  if Ascii.eqb c BACKSLASH then "\\"
  else if Ascii.eqb c DQUOTE then "\" +++ dq
  else String c EmptyString.

Fixpoint quoted (s : string) : string :=
  match s with
  | EmptyString => EmptyString
  | String c rest => quoted_byte c +++ quoted rest
  end.

(** operations a consumer performs on the stream it got from [GetReader] *)
Inductive StreamOp : Type :=
| DoRead (n : nat)
| DoClose.

Definition stream_op (op : StreamOp) (st : Store * nopCloser) : Store * nopCloser :=
  match op with
  | DoRead n =>
      let r := nopCloser_Read n (fst st) (snd st) in
      (rr_store r, NopCloser (rr_readers r))
  | DoClose => fst (nopCloser_Close (fst st) (snd st))
  end.

Definition stream_ops (ops : list StreamOp) (st : Store * nopCloser) : Store * nopCloser :=
  fold_left (fun st op => stream_op op st) ops st.

(** whether address [a] of the heap holds a file handle that is open *)
Definition handle_open (h : Heap) (a : nat) : bool :=
  match nth_error h a with
  | Some o => file_is_open o
  | None => false
  end.

(** the stream of a composer whose [reader] field is still nil *)
Definition nil_stream : MultiReader := [SrcBody; SrcPayload None; SrcClose].

(** the composer's buffers after a run, from the ones before and the trace:
    every byte a buffer hands out leaves it *)
Definition consumed (tr : list Event) (m m' : MultipartStreamer) : Prop :=
  bodyBuffer m' = skipn (List.length (emitted is_body tr)) (bodyBuffer m) /\
  closeBuffer m' = skipn (List.length (emitted is_close tr)) (closeBuffer m) /\
  contentLength m' = contentLength m.

(** the only heap object the sources [rs] refer to is the one at [a] *)
Definition only_ref (a : nat) (rs : MultiReader) : Prop :=
  Forall (fun src => match src with
                     | SrcPayload (Some a') => a' = a
                     | _ => True
                     end) rs.

Definition store_set_body (b : Bytes) (s : Store) : Store :=
  {| st_heap := st_heap s; st_ms := set_bodyBuffer b (st_ms s) |}.

Definition store_set_close (b : Bytes) (s : Store) : Store :=
  {| st_heap := st_heap s; st_ms := set_closeBuffer b (st_ms s) |}.

(** how the monitor's state relates to the state of the stream *)
Definition monitor_inv (mo : Monitor) (s : Store) (rs : MultiReader) : Prop :=
  match rs with
  | [SrcBody; SrcPayload _; SrcClose] => hdr_left mo = bodyBuffer (st_ms s)
  | [SrcPayload _; SrcClose] => hdr_left mo = []
  | [SrcClose] => hdr_left mo = [] /\ payload_eof mo = true
  | [] => hdr_left mo = [] /\ payload_eof mo = true
  | _ => False
  end.

Definition monitor_accepts (n : nat) (mo : Monitor) (s : Store) (rs : MultiReader) : Prop :=
  let r := multiReader_Read n s rs in
  exists mo', monitor_run mo (rr_events r) = Some mo' /\
              monitor_inv mo' (rr_store r) (rr_readers r).

(** ** The writer during the build phase *)

(** no write to the buffer has failed: the writer has no part yet, or an
    open part without write error *)
Definition writer_ok (w : multipart.Writer) : Prop :=
  multipart.lastpart w = None \/
  multipart.lastpart w = Some multipart.new_part.

(** the boundary line [CreatePart] writes before the headers of a part *)
Definition delimiter (w : multipart.Writer) : string :=
  match multipart.lastpart w with
  | Some _ => crlf +++ "--" +++ multipart.boundary w +++ crlf
  | None => "--" +++ multipart.boundary w +++ crlf
  end.

(** the bytes [CreatePart] writes for the header map [h] *)
Definition part_header (h : textproto.MIMEHeader) (w : multipart.Writer) : Bytes :=
  bytes_of (delimiter w +++ multipart.header_lines h +++ crlf).

(** the writer after a successful [CreatePart] *)
Definition part_writer (w : multipart.Writer) : multipart.Writer :=
  {| multipart.boundary := multipart.boundary w;
     multipart.lastpart := Some multipart.new_part |}.

(** the header map [WritePart] hands to [CreatePart] *)
Definition WritePart_header (fieldname : string) (headers : list (string * string))
  : textproto.MIMEHeader :=
  fold_left (fun h kv => textproto.Set_ (fst kv) (snd kv) h) headers
    (textproto.Set_ "Content-Disposition"
       ("form-data; name=" +++ dq +++ escapeQuotes fieldname +++ dq) textproto.make).

(** the header map [WriteReaderWithHeaders] hands to [CreatePart] *)
Definition WithHeaders_header (key filename : string) (headers : list (string * any))
  : textproto.MIMEHeader :=
  fold_left (fun h kv => textproto.Set_ (fst kv) (fmt.Sprint_v (snd kv)) h) headers
    (textproto.Set_ "Content-Disposition"
       ("form-data; name=" +++ dq +++ escapeQuotes key +++ dq +++
        "; filename=" +++ dq +++ escapeQuotes filename +++ dq) textproto.make).

(** a key of the caller's headers map is stored under the name
    Content-Disposition, and so replaces the header the package generates *)
Definition overrides_disposition (keys : list string) : bool :=
  existsb (fun k => String.eqb (textproto.CanonicalMIMEHeaderKey k) "Content-Disposition")
          keys.

(** what a build call leaves alone *)
Definition same_frame (m m' : MultipartStreamer) : Prop :=
  ContentType m' = ContentType m /\ closeBuffer m' = closeBuffer m /\
  reader m' = reader m /\ contentLength m' = contentLength m /\
  multipart.boundary (bodyWriter m') = multipart.boundary (bodyWriter m).

(** the composers the package's API produces: [New] with boundary options,
    then build calls and registrations that return *)
Inductive Reachable : MultipartStreamer -> Prop :=
| Reach_New (random : string) (bs : list string) :
    Reachable (New random (map WithBoundary bs))
| Reach_build (op : BuildOp) (m : MultipartStreamer) :
    Reachable m -> Reachable (fst (run_op op m))
| Reach_register (reg : Registration) (m m' : MultipartStreamer) (err : error) :
    Reachable m -> register reg m = Returns m' err -> Reachable m'.

(** ** The scenarios of the specification *)

(** the field value [{"x":1}] *)
Definition scenario_value : string := "{" +++ dq +++ "x" +++ dq +++ ":1}".

(** boundary X, field parameters, then the payload registered by
    [WriteReader("file", "file", 5, r)] *)
Definition scenario_fields (random : string) : MultipartStreamer :=
  fst (WriteFields [("parameters", scenario_value)] (New random [WithBoundary "X"])).

Definition scenario (random : string) (r : ReaderRef) : MultipartStreamer :=
  fst (WriteReader "file" "file" 5 r (scenario_fields random)).

(** a heap whose only object is a reader over the five bytes of hello *)
Definition hello_heap : Heap :=
  [OReader SliceReader SliceReader_Reader (mkSliceReader (bytes_of "hello"))].

(** the stream as the specification expects it *)
Definition scenario_claimed : string :=
  "--X" +++ crlf +++
  "Content-Disposition: form-data; name=" +++ dq +++ "parameters" +++ dq +++ crlf +++
  crlf +++
  scenario_value +++ crlf +++
  "--X" +++ crlf +++
  "Content-Disposition: form-data; name=" +++ dq +++ "file" +++ dq +++
    "; filename=" +++ dq +++ "file" +++ dq +++ crlf +++
  crlf +++
  "hello" +++ crlf +++
  "--X--" +++ crlf.

(** the stream as the code produces it: [CreateFormFile] adds a
    Content-Type header to the file part *)
Definition scenario_actual : string :=
  "--X" +++ crlf +++
  "Content-Disposition: form-data; name=" +++ dq +++ "parameters" +++ dq +++ crlf +++
  crlf +++
  scenario_value +++ crlf +++
  "--X" +++ crlf +++
  "Content-Disposition: form-data; name=" +++ dq +++ "file" +++ dq +++
    "; filename=" +++ dq +++ "file" +++ dq +++ crlf +++
  "Content-Type: application/octet-stream" +++ crlf +++
  crlf +++
  "hello" +++ crlf +++
  "--X--" +++ crlf.

(** a file system with one five-byte file, and no object on the heap *)
Definition upload_world : World :=
  {| fs := [("/tmp/upload.bin",
             {| os.content := bytes_of "hello"; os.stat_ok := true |})];
     heap := [] |}.

(** a consumer with a fixed buffer of [n] bytes, as [io.Copy] has *)
Definition fixed (n : nat) : nat -> nat := fun _ => n.

(** ** Package net/http: the request fields SetupRequest sets *)

Module http.

(** [req.Body], [req.Header], [req.ContentLength] of an [*http.Request].
    A nil [Body] is [None]; a nil [Header] map (as in a request built by a
    struct literal rather than [http.NewRequest]) is [None]. *)
Record Request := mkRequest {
  Body : option nopCloser;
  Header : option textproto.MIMEHeader;
  ContentLength : Z
}.

(** [h.Add(key, value)] on a non-nil map: the key is canonicalised and the
    value appended to the values already stored under it *)
Definition Header_Add (key value : string) (h : textproto.MIMEHeader)
  : textproto.MIMEHeader :=
  let k := textproto.CanonicalMIMEHeaderKey key in
  textproto.assign k (textproto.lookup k h ++ [value]) h.

End http.

(** ** SetupRequest (streamer.go)

    The request is reached through a pointer, so a call that panics
    leaves the assignments made before the panic.  [Header.Add] on a nil
    map panics ("assignment to entry in nil map"). *)

Inductive setup_result : Type :=
| SetupReturns (req : http.Request)
| SetupPanics (req : http.Request) (msg : string).

Definition SetupRequest (m : MultipartStreamer) (req : http.Request) : setup_result :=
  let req := {| http.Body := Some (GetReader m);
                http.Header := http.Header req;
                http.ContentLength := http.ContentLength req |} in
  match http.Header req with
  | None => SetupPanics req "assignment to entry in nil map"
  | Some h =>
      SetupReturns
        {| http.Body := http.Body req;
           http.Header := Some (http.Header_Add "Content-Type" (ContentType m) h);
           http.ContentLength := Len m |}
  end.

(** ** The example program (streamer.go, func main)

    The calls [main] makes on the composer, with the results it ignores
    ignored: [New()], [WritePart] of the parameters, [WriteFile] of the
    file at [path].  [random] is the boundary [New] draws.  (Flag parsing,
    the progress lines and the creation of the output file are left
    out.) *)

Definition example_json : string :=
  "{" +++ dq +++ "options" +++ dq +++ ": {" +++ dq +++ "x" +++ dq +++ ":1, "
      +++ dq +++ "y" +++ dq +++ ":" +++ dq +++ "hello" +++ dq +++ ", "
      +++ dq +++ "z" +++ dq +++ ": true}}".

Definition example_data : CopySource :=
  {| src_bytes := bytes_of example_json; src_err := NoErr |}.

Definition example_main (random path : string) (w : World) : World * MultipartStreamer :=
  let ms := New random [] in
  let ms := fst (WritePart "parameters" example_data
                   [("Content-Type", "application/xxx+json")] ms) in
  let '(w', (ms', _)) := WriteFile "file" path w ms in
  (w', ms').

(** ** Vocabulary of the further properties *)

(** the test of [SetBoundary] on the boundary itself: 1 to 70 bytes, all
    accepted characters *)
Definition boundary_accepted (b : string) : bool :=
  negb (Nat.ltb (String.length b) 1 || Nat.ltb 70 (String.length b)) &&
  multipart.boundary_chars_ok b.

(** the boundary a list of [WithBoundary] options leaves: the last accepted
    one, or the default *)
Definition chosen_boundary (random : string) (bs : list string) : string :=
  fold_left (fun cur b => if boundary_accepted b then b else cur) bs random.

(** the line that opens a part: the first part of a body starts with the
    dash-boundary, each later one with CRLF and the dash-boundary *)
Definition opening (boundary : string) (first : bool) : string :=
  (if first then EmptyString else crlf) +++ "--" +++ boundary +++ crlf.

(** no part has been written: the header buffer is empty *)
Definition no_part_yet (m : MultipartStreamer) : bool :=
  match bodyBuffer m with
  | [] => true
  | _ => false
  end.

(** a form field on the wire: its disposition line, an empty line, the
    value as it is *)
Definition field_wire (name value : string) : string :=
  "Content-Disposition: form-data; name=" +++ dq +++ quoted name +++ dq +++ crlf +++
  crlf +++ value.

Fixpoint fields_wire (boundary : string) (first : bool) (fields : list (string * string))
  : string :=
  match fields with
  | [] => EmptyString
  | (name, value) :: rest =>
      opening boundary first +++ field_wire name value +++ fields_wire boundary false rest
  end.

(** the disposition line of a file part *)
Definition file_disposition (name filename : string) : string :=
  "Content-Disposition: form-data; name=" +++ dq +++ quoted name +++ dq +++
  "; filename=" +++ dq +++ quoted filename +++ dq +++ crlf.

(** A scanner of the inside of a quoted string: a backslash makes the next
    byte literal, a bare double quote ends the string.  It returns the
    bytes read and what follows the closing quote; [None] when the string
    is not closed. *)
Fixpoint scan_quoted (s : string) : option (string * string) :=
  match s with
  | EmptyString => None
  | String c rest =>
      if Ascii.eqb c DQUOTE then Some (EmptyString, rest)
      else if Ascii.eqb c BACKSLASH then
        match rest with
        | EmptyString => None
        | String c' rest' =>
            match scan_quoted rest' with
            | Some (v, r) => Some (String c' v, r)
            | None => None
            end
        end
      else
        match scan_quoted rest with
        | Some (v, r) => Some (String c v, r)
        | None => None
        end
  end.

(** the keys of a headers map, as [h.Set] stores them *)
Definition canonical_keys {V : Type} (headers : list (string * V)) : list string :=
  map (fun kv => textproto.CanonicalMIMEHeaderKey (fst kv)) headers.

(** the writer has written no part *)
Definition first_part (w : multipart.Writer) : bool :=
  match multipart.lastpart w with
  | None => true
  | Some _ => false
  end.

(** the composer after a file part was framed: [lines] are the part's
    header lines *)
Definition with_file_part (m : MultipartStreamer) (lines : string) (r : ReaderRef)
    (size : Z) : MultipartStreamer :=
  {| ContentType := ContentType m;
     bodyBuffer := bodyBuffer m ++
       bytes_of (opening (Boundary m) (no_part_yet m) +++ lines +++ crlf);
     bodyWriter := part_writer (bodyWriter m);
     closeBuffer := closeBuffer m;
     reader := r;
     contentLength := size |}.

(** the buffers of the sources the multi-reader has dropped are empty *)
Definition dropped_empty (s : Store) (rs : MultiReader) : Prop :=
  match rs with
  | [SrcBody; SrcPayload _; SrcClose] => True
  | [SrcPayload _; SrcClose] => bodyBuffer (st_ms s) = []
  | [SrcClose] => bodyBuffer (st_ms s) = []
  | [] => bodyBuffer (st_ms s) = [] /\ closeBuffer (st_ms s) = []
  | _ => False
  end.

(** what the example program writes before the file's content, and after *)
Definition example_head (random : string) : string :=
  "--" +++ random +++ crlf +++
  "Content-Disposition: form-data; name=" +++ dq +++ "parameters" +++ dq +++ crlf +++
  "Content-Type: application/xxx+json" +++ crlf +++
  crlf +++
  example_json.


Definition example_tail (random : string) : string :=
  crlf +++ "--" +++ random +++ "--" +++ crlf.

(** the order [sort.Strings] sorts by *)
Definition le_str (a b : string) : Prop := String.leb a b = true.

(** two header maps with the same keys and the same values *)
Definition same_headers (h h' : textproto.MIMEHeader) : Prop :=
  (forall k, textproto.lookup k h = textproto.lookup k h') /\
  (forall k, In k (textproto.keys h) <-> In k (textproto.keys h')) /\
  NoDup (textproto.keys h) /\ NoDup (textproto.keys h').

(** * Properties *)

(** ** The library models on small inputs *)

Example escapeQuotes_example :
  escapeQuotes ("a\b" +++ dq +++ "c") = "a\\b\" +++ dq +++ "c".
Proof. reflexivity. Qed.

Example CanonicalMIMEHeaderKey_examples :
  textproto.CanonicalMIMEHeaderKey "content-disposition" = "Content-Disposition" /\
  textproto.CanonicalMIMEHeaderKey "CONTENT-length" = "Content-Length" /\
  textproto.CanonicalMIMEHeaderKey "x header" = "x header".
Proof. vm_compute. repeat split; reflexivity. Qed.

Example SetBoundary_examples :
  snd (multipart.SetBoundary "X" (multipart.NewWriter "R")) = NoErr /\
  snd (multipart.SetBoundary "a b" (multipart.NewWriter "R")) = NoErr /\
  snd (multipart.SetBoundary "a b " (multipart.NewWriter "R")) =
    Err "mime: invalid boundary character" /\
  snd (multipart.SetBoundary "" (multipart.NewWriter "R")) =
    Err "mime: invalid boundary length" /\
  snd (multipart.SetBoundary "a;b" (multipart.NewWriter "R")) =
    Err "mime: invalid boundary character".
Proof. vm_compute. repeat split; reflexivity. Qed.

Example Base_examples :
  filepath.Base "/a/b/c.txt" = "c.txt" /\ filepath.Base "/a/b/" = "b" /\
  filepath.Base "///" = "/" /\ filepath.Base "" = "." /\ filepath.Base "x" = "x".
Proof. vm_compute. repeat split; reflexivity. Qed.

Example decimal_examples :
  fmt.decimal 0 = "0" /\ fmt.decimal 1234 = "1234" /\ fmt.decimal (-12) = "-12".
Proof. vm_compute. repeat split; reflexivity. Qed.

Example wrap64_examples :
  wrap64 (2 ^ 63 - 1) = (2 ^ 63 - 1)%Z /\ wrap64 (2 ^ 63) = (- 2 ^ 63)%Z /\
  wrap64 (-1) = (-1)%Z.
Proof. vm_compute. repeat split; reflexivity. Qed.

(** the scenario's header buffer *)
Example scenario_header :
  bodyBuffer (scenario "R" (Some 0)) =
  bytes_of
    ("--X" +++ crlf +++
     "Content-Disposition: form-data; name=" +++ dq +++ "parameters" +++ dq +++ crlf +++
     crlf +++ scenario_value +++ crlf +++
     "--X" +++ crlf +++
     "Content-Disposition: form-data; name=" +++ dq +++ "file" +++ dq +++
       "; filename=" +++ dq +++ "file" +++ dq +++ crlf +++
     "Content-Type: application/octet-stream" +++ crlf +++ crlf).
Proof. vm_compute. reflexivity. Qed.

(** the monitor rejects a payload call while header bytes are pending, and
    a trailer read before the payload's [io.EOF] *)
Example ordered_rejects :
  ordered (bytes_of "hdr") [EvRead (SrcPayload (Some 0)) (bytes_of "x") NoErr] = false /\
  ordered (bytes_of "hdr")
    [EvRead SrcBody (bytes_of "hdr") NoErr; EvRead SrcBody [] EOF;
     EvRead (SrcPayload (Some 0)) (bytes_of "x") NoErr;
     EvRead SrcClose (bytes_of "t") NoErr] = false /\
  ordered (bytes_of "hdr")
    [EvRead SrcBody (bytes_of "hdr") NoErr; EvRead SrcBody [] EOF;
     EvRead (SrcPayload (Some 0)) (bytes_of "x") NoErr;
     EvRead (SrcPayload (Some 0)) [] EOF;
     EvRead SrcClose (bytes_of "t") NoErr] = true.
Proof. vm_compute. repeat split; reflexivity. Qed.

(** ** Lists of bytes *)

Lemma firstn_length_firstn (n : nat) (b : Bytes) :
  firstn (List.length (firstn n b)) b = firstn n b.
Proof.
  revert n; induction b as [|c b IH]; intros [|n]; simpl; auto.
  f_equal. apply IH.
Qed.

Lemma skipn_length_firstn (n : nat) (b : Bytes) :
  skipn (List.length (firstn n b)) b = skipn n b.
Proof.
  revert n; induction b as [|c b IH]; intros [|n]; simpl; auto.
Qed.

Lemma firstn_app_prefix (p d rest : Bytes) :
  firstn (List.length p) d = p -> firstn (List.length p) (d ++ rest) = p.
Proof.
  revert d; induction p as [|c p IH]; intros d H; simpl in *; auto.
  destruct d as [|c' d]; simpl in *; [discriminate|].
  inversion H; subst. f_equal. rewrite H2. apply IH. exact H2.
Qed.

Lemma skipn_app_prefix (p d rest : Bytes) :
  firstn (List.length p) d = p ->
  skipn (List.length p) (d ++ rest) = skipn (List.length p) d ++ rest.
Proof.
  revert d; induction p as [|c p IH]; intros d H; simpl in *; auto.
  destruct d as [|c' d]; simpl in *; [discriminate|].
  inversion H; subst. rewrite H2. apply IH. exact H2.
Qed.

(** what a read of a buffer with a non-empty [p] does *)
Lemma bytes_Read_cases (n : nat) (b : bytes.Buffer) :
  0 < n ->
  (b = [] /\ bytes.Read n b = (([], EOF), [])) \/
  (b <> [] /\ firstn n b <> [] /\ bytes.Read n b = ((firstn n b, NoErr), skipn n b)).
Proof.
  intros Hn. destruct b as [|c b]; [left|right].
  - split; auto. simpl. destruct (Nat.eqb_spec n 0); [lia|reflexivity].
  - split; [discriminate|]. split; [|reflexivity].
    destruct n; [lia|]. simpl. discriminate.
Qed.

Lemma stream_Read_nil (n : nat) (s : Store) :
  stream_Read n (s, []) = Some (([], EOF), (s, [])).
Proof. reflexivity. Qed.

Lemma empty_stream_delivers (s : Store) : Delivers stream_Read (s, []) [].
Proof.
  constructor.
  - intros n _. rewrite stream_Read_nil. do 3 eexists; split; reflexivity.
  - intros n p s' _. rewrite stream_Read_nil. discriminate.
Qed.

Section BufferSource.

Variable src : Src.
Variable get : Store -> Bytes.
Variable set : Bytes -> Store -> Store.

Hypothesis Src_Read_buffer : forall n s,
  Src_Read n s src =
  Some (fst (bytes.Read n (get s)), set (snd (bytes.Read n (get s))) s).
Hypothesis get_set : forall b s, get (set b s) = b.
Hypothesis set_set : forall b b' s, set b (set b' s) = set b s.

Lemma buffer_stream_Read_empty (n : nat) (s : Store) (rest : MultiReader) :
  0 < n -> get s = [] ->
  stream_Read n (s, src :: rest) = stream_Read n (set [] s, rest).
Proof.
  intros Hn Hb. unfold stream_Read. simpl.
  rewrite Src_Read_buffer, Hb.
  destruct (bytes_Read_cases n [] Hn) as [[_ E]|[E _]]; [|congruence].
  rewrite E. simpl. reflexivity.
Qed.

Lemma buffer_stream_Read_data (n : nat) (s : Store) (rest : MultiReader) :
  0 < n -> get s <> [] ->
  stream_Read n (s, src :: rest) =
  Some ((firstn n (get s), NoErr), (set (skipn n (get s)) s, src :: rest)).
Proof.
  intros Hn Hb. unfold stream_Read. simpl.
  rewrite Src_Read_buffer.
  destruct (bytes_Read_cases n (get s) Hn) as [[E _]|[_ [_ E]]]; [congruence|].
  rewrite E. simpl. reflexivity.
Qed.

Lemma buffer_then_delivers (rest : MultiReader) (data : Bytes) (k : nat) :
  forall s, List.length (get s) <= k ->
  Delivers stream_Read (set [] s, rest) data ->
  Delivers stream_Read (s, src :: rest) (get s ++ data).
Proof.
  induction k as [|k IH]; intros s Hlen Hrest.
  - assert (Hb : get s = []) by (destruct (get s); [reflexivity | simpl in Hlen; lia]).
    rewrite Hb. simpl.
    inversion Hrest as [? ? H1 H2]; subst.
    constructor.
    + intros n Hn. rewrite buffer_stream_Read_empty by auto. auto.
    + intros n p s' Hn. rewrite buffer_stream_Read_empty by auto. eauto.
  - destruct (list_eq_dec ascii_dec (get s) []) as [Hb|Hne].
    + apply (IH s); auto. rewrite Hb; simpl; lia.
    + constructor.
      * intros n Hn. rewrite buffer_stream_Read_data by auto.
        do 3 eexists. split; [reflexivity|]. simpl.
        apply firstn_app_prefix, firstn_length_firstn.
      * intros n p s' Hn. rewrite buffer_stream_Read_data by auto.
        intros E; inversion E; subst; clear E.
        rewrite skipn_app_prefix by apply firstn_length_firstn.
        rewrite skipn_length_firstn.
        replace (skipn n (get s)) with (get (set (skipn n (get s)) s)) at 2
          by apply get_set.
        apply IH.
        -- rewrite get_set, length_skipn. lia.
        -- rewrite set_set. exact Hrest.
Qed.

End BufferSource.

Lemma body_then_delivers (rest : MultiReader) (data : Bytes) (s : Store) :
  Delivers stream_Read (store_set_body [] s, rest) data ->
  Delivers stream_Read (s, SrcBody :: rest) (bodyBuffer (st_ms s) ++ data).
Proof.
  apply (buffer_then_delivers SrcBody (fun s => bodyBuffer (st_ms s)) store_set_body)
    with (k := List.length (bodyBuffer (st_ms s))); auto.
  intros n s0. simpl. destruct (bytes.Read n (bodyBuffer (st_ms s0))); reflexivity.
Qed.

Lemma close_delivers (s : Store) :
  Delivers stream_Read (s, [SrcClose]) (closeBuffer (st_ms s)).
Proof.
  rewrite <- (app_nil_r (closeBuffer (st_ms s))).
  apply (buffer_then_delivers SrcClose (fun s => closeBuffer (st_ms s)) store_set_close)
    with (k := List.length (closeBuffer (st_ms s))); auto.
  - intros n s0. simpl. destruct (bytes.Read n (closeBuffer (st_ms s0))); reflexivity.
  - apply empty_stream_delivers.
Qed.

Lemma heap_update_twice (h : Heap) (a : nat) (o1 o2 : Obj) :
  heap_update a o2 (heap_update a o1 h) = heap_update a o2 h.
Proof.
  revert a; induction h as [|x h IH]; intros [|a]; simpl; auto. f_equal; auto.
Qed.

Lemma heap_update_same (h : Heap) (a : nat) (o o' : Obj) :
  nth_error h a = Some o -> nth_error (heap_update a o' h) a = Some o'.
Proof.
  revert a. induction h as [|x h IH]; intros [|a] H; simpl in *; try discriminate; auto.
Qed.

Lemma heap_update_other (h : Heap) (a b : nat) (o' : Obj) :
  a <> b -> nth_error (heap_update a o' h) b = nth_error h b.
Proof.
  revert a b. induction h as [|x h IH]; intros [|a] [|b] H; simpl; auto; try congruence.
Qed.

(** one read of the stream whose first source is the payload object *)
Lemma payload_stream_Read (n : nat) (h : Heap) (m : MultipartStreamer) (a : nat)
    (o : Obj) (rest : MultiReader) :
  nth_error h a = Some o ->
  stream_Read n ({| st_heap := h; st_ms := m |}, SrcPayload (Some a) :: rest) =
  let '((p, e), o') := Obj_Read n o in
  let s' := {| st_heap := heap_update a o' h; st_ms := m |} in
  match e, p, rest with
  | EOF, [], _ => stream_Read n (s', rest)
  | EOF, _, [] => Some ((p, EOF), (s', rest))
  | EOF, _, _ => Some ((p, NoErr), (s', rest))
  | _, _, _ => Some ((p, e), (s', SrcPayload (Some a) :: rest))
  end.
Proof.
  intros Ha. unfold stream_Read. simpl. rewrite Ha.
  destruct (Obj_Read n o) as [[p e] o']. simpl.
  destruct e; simpl; try reflexivity.
  destruct p; simpl; try reflexivity.
  destruct rest; reflexivity.
Qed.

Lemma payload_then_delivers (o : Obj) (data : Bytes) :
  Yields o data ->
  forall (h : Heap) (m : MultipartStreamer) (a : nat),
  nth_error h a = Some o ->
  Delivers stream_Read
    ({| st_heap := h; st_ms := m |}, [SrcPayload (Some a); SrcClose])
    (data ++ closeBuffer m).
Proof.
  unfold Yields.
  induction 1 as [o data Hstep Hnext IH]; intros h m a Ha.
  constructor.
  - intros n Hn. rewrite (payload_stream_Read n h m a o _ Ha).
    destruct (Hstep n Hn) as (p & e & o' & E & Hok).
    inversion E as [E']; clear E. rewrite E'.
    destruct e; simpl in Hok; [| |contradiction].
    + do 3 eexists. split; [reflexivity|]. simpl. apply firstn_app_prefix, Hok.
    + subst data. destruct p as [|c p].
      * simpl.
        pose proof (close_delivers {| st_heap := heap_update a o' h; st_ms := m |}) as Hc.
        inversion Hc as [? ? H1 H2]; subst. apply H1, Hn.
      * do 3 eexists. split; [reflexivity|]. simpl. f_equal.
        rewrite firstn_app, Nat.sub_diag, firstn_all. simpl. apply app_nil_r.
  - intros n p s' Hn. rewrite (payload_stream_Read n h m a o _ Ha).
    destruct (Hstep n Hn) as (p0 & e & o' & E & Hok).
    inversion E as [E']; clear E. rewrite E'.
    destruct e; simpl in Hok; [| |contradiction].
    + intros E; inversion E; subst; clear E.
      rewrite skipn_app_prefix by exact Hok.
      apply (IH n p o' Hn).
      * rewrite E'. reflexivity.
      * eapply heap_update_same; eauto.
    + subst data. destruct p0 as [|c p0].
      * simpl.
        pose proof (close_delivers {| st_heap := heap_update a o' h; st_ms := m |}) as Hc.
        inversion Hc as [? ? H1 H2]; subst. intros E. eapply H2; eauto.
      * intros E; inversion E; subst; clear E.
        rewrite skipn_app, skipn_all, Nat.sub_diag. simpl.
        apply (close_delivers {| st_heap := heap_update a o' h; st_ms := m |}).
Qed.

(** the composed stream of a composer with a registered payload delivers
    header, payload and trailer *)
Lemma stream_delivers (h : Heap) (m : MultipartStreamer) (a : nat) (o : Obj)
    (data : Bytes) :
  reader m = Some a -> nth_error h a = Some o -> Yields o data ->
  Delivers stream_Read ({| st_heap := h; st_ms := m |}, MultiReader_of m)
    (bodyBuffer m ++ data ++ closeBuffer m).
Proof.
  intros Hr Ha Hy. unfold MultiReader_of. rewrite Hr.
  apply (body_then_delivers _ _ {| st_heap := h; st_ms := m |}).
  apply (payload_then_delivers o data Hy h (set_bodyBuffer [] m) a Ha).
Qed.

Lemma requests_S (size : nat -> nat) (k : nat) :
  requests size (S k) = size 0 :: requests (fun i => size (S i)) k.
Proof.
  unfold requests. simpl. f_equal.
  rewrite <- seq_shift, map_map. reflexivity.
Qed.

Lemma ReadAll_step (n : nat) (reqs : list nat) (s : Store) (rs : MultiReader)
    (p : Bytes) (e : error) (s' : Store) (rs' : MultiReader) :
  stream_Read n (s, rs) = Some ((p, e), (s', rs')) ->
  let k := ReadAll reqs s' (NopCloser rs') in
  let r := ReadAll (n :: reqs) s (NopCloser rs) in
  run_out r = match e with NoErr => p ++ run_out k | _ => p end /\
  run_status r =
    match e with NoErr => run_status k | EOF => Drained | Err msg => Failed msg end /\
  run_store r = match e with NoErr => run_store k | _ => s' end.
Proof.
  unfold stream_Read. simpl. unfold nopCloser_Read. simpl.
  destruct (rr_ret (multiReader_Read n s rs)) as [[p0 e0]|]; [|discriminate].
  intros E; inversion E; subst; clear E.
  destruct e; simpl; auto.
Qed.

(** a stream that delivers [data] is drained, to exactly [data], by every
    consumer that reads with non-empty buffers *)
Lemma Delivers_drains (st : Store * MultiReader) (data : Bytes) :
  Delivers stream_Read st data ->
  forall size : nat -> nat, (forall i, 0 < size i) ->
  exists k,
    let run := ReadAll (requests size k) (fst st) (NopCloser (snd st)) in
    run_status run = Drained /\ run_out run = data.
Proof.
  induction 1 as [[s rs] data Hstep Hnext IH]; intros size Hsize.
  destruct (Hstep (size 0) (Hsize 0)) as (p & e & [s' rs'] & E & Hok).
  destruct e; simpl in Hok; [| |contradiction].
  - destruct (IH (size 0) p (s', rs') (Hsize 0) E (fun i => size (S i)))
      as (k & Hst & Hout); [intros i; apply Hsize|].
    exists (S k). rewrite requests_S. simpl fst in *; simpl snd in *.
    destruct (ReadAll_step (size 0) (requests (fun i => size (S i)) k) s rs _ _ _ _ E)
      as (Ho & Hs & _).
    cbv zeta. rewrite Ho, Hs. split; [exact Hst|].
    cbv zeta in Hout. rewrite Hout. rewrite <- Hok at 1. apply firstn_skipn.
  - exists 1. rewrite requests_S. simpl fst; simpl snd.
    destruct (ReadAll_step (size 0) (requests (fun i => size (S i)) 0) s rs _ _ _ _ E)
      as (Ho & Hs & _).
    cbv zeta. rewrite Ho, Hs. auto.
Qed.

(** *** The ordering monitor accepts every trace of the stream *)

Lemma monitor_run_app (mo : Monitor) (t1 t2 : list Event) :
  monitor_run mo (t1 ++ t2) =
  match monitor_run mo t1 with
  | Some mo' => monitor_run mo' t2
  | None => None
  end.
Proof.
  revert mo; induction t1 as [|ev t1 IH]; intros mo; simpl; auto.
  destruct (monitor_step mo ev); auto.
Qed.

Lemma bytes_Read_shape (n : nat) (b : bytes.Buffer) :
  let '((p, e), b') := bytes.Read n b in
  firstn (List.length p) b = p /\ skipn (List.length p) b = b' /\
  (e = EOF -> p = [] /\ b = []) /\ e <> Err EmptyString.
Proof.
  destruct b as [|c b]; simpl.
  - destruct (Nat.eqb n 0); repeat split; auto; discriminate.
  - repeat split; try discriminate.
    + apply (firstn_length_firstn n (c :: b)).
    + apply (skipn_length_firstn n (c :: b)).
Qed.

Lemma monitor_close (n : nat) (mo : Monitor) (s : Store) :
  monitor_inv mo s [SrcClose] -> monitor_accepts n mo s [SrcClose].
Proof.
  intros [Hh He]. unfold monitor_accepts. simpl.
  pose proof (bytes_Read_shape n (closeBuffer (st_ms s))) as Hsh.
  destruct (bytes.Read n (closeBuffer (st_ms s))) as [[p e] b'].
  destruct Hsh as (_ & _ & Hp & _).
  destruct e; simpl; rewrite ?He.
  - exists mo. simpl. rewrite He. auto.
  - rewrite (proj1 (Hp eq_refl)). simpl. rewrite He. exists mo. simpl. auto.
  - exists mo. simpl. rewrite He. auto.
Qed.

Lemma monitor_payload (n : nat) (mo : Monitor) (s : Store) (r : ReaderRef) :
  monitor_inv mo s [SrcPayload r; SrcClose] ->
  monitor_accepts n mo s [SrcPayload r; SrcClose].
Proof.
  intros Hh. simpl in Hh. unfold monitor_accepts.
  destruct r as [a|]; simpl.
  2:{ exists mo. simpl. rewrite Hh. auto. }
  destruct (nth_error (st_heap s) a) as [o|].
  2:{ exists mo. simpl. rewrite Hh. auto. }
  destruct (Obj_Read n o) as [[p e] o'].
  destruct e.
  - simpl. rewrite Hh. eexists. split; [reflexivity|]. reflexivity.
  - destruct p as [|c p].
    + set (s' := {| st_heap := heap_update a o' (st_heap s); st_ms := st_ms s |}).
      set (mo' := {| hdr_left := []; payload_eof := payload_eof mo || true |}).
      destruct (monitor_close n mo' s') as (mo2 & Hrun & Hinv).
      { split; [reflexivity|]. simpl. apply orb_true_r. }
      exists mo2. split; [|exact Hinv].
      cbn [rr_events monitor_run monitor_step]. rewrite Hh. exact Hrun.
    + simpl. rewrite Hh. eexists. split; [reflexivity|].
      split; [reflexivity|]. simpl. apply orb_true_r.
  - simpl. rewrite Hh. eexists. split; [reflexivity|]. reflexivity.
Qed.

Lemma monitor_body (n : nat) (mo : Monitor) (s : Store) (r : ReaderRef) :
  monitor_inv mo s [SrcBody; SrcPayload r; SrcClose] ->
  monitor_accepts n mo s [SrcBody; SrcPayload r; SrcClose].
Proof.
  intros Hh. simpl in Hh. unfold monitor_accepts.
  cbn [multiReader_Read Src_Read].
  pose proof (bytes_Read_shape n (bodyBuffer (st_ms s))) as Hsh.
  destruct (bytes.Read n (bodyBuffer (st_ms s))) as [[p e] b'].
  destruct Hsh as (Hf & Hs & Hp & _).
  assert (Hstep : monitor_step mo (EvRead SrcBody p e) =
                  Some {| hdr_left := b'; payload_eof := payload_eof mo |}).
  { simpl. rewrite Hh, Hf, Hs.
    destruct (list_eq_dec ascii_dec p p); [reflexivity|congruence]. }
  destruct e.
  - eexists. cbn [rr_events monitor_run]. rewrite Hstep. split; [reflexivity|].
    reflexivity.
  - destruct (Hp eq_refl) as [Hp1 Hb]. subst p. simpl in Hs. subst b'.
    set (s' := {| st_heap := st_heap s;
                  st_ms := set_bodyBuffer (bodyBuffer (st_ms s)) (st_ms s) |}).
    destruct (monitor_payload n
                {| hdr_left := bodyBuffer (st_ms s); payload_eof := payload_eof mo |} s' r)
      as (mo2 & Hrun & Hinv); [exact Hb|].
    exists mo2. split; [|exact Hinv].
    cbn [rr_events monitor_run]. rewrite Hstep. exact Hrun.
  - eexists. cbn [rr_events monitor_run]. rewrite Hstep. split; [reflexivity|].
    reflexivity.
Qed.

Lemma monitor_accepts_Read (n : nat) (mo : Monitor) (s : Store) (rs : MultiReader) :
  monitor_inv mo s rs -> monitor_accepts n mo s rs.
Proof.
  intros H.
  destruct rs as [|[|r|] [|[|r'|] [|[| |] [|? ?]]]]; simpl in H; try contradiction.
  all: first [ apply monitor_body; exact H
             | apply monitor_payload; exact H
             | apply monitor_close; exact H
             | exists mo; simpl; auto ].
Qed.

Lemma monitor_accepts_ReadAll (reqs : list nat) :
  forall (mo : Monitor) (s : Store) (rs : MultiReader),
  monitor_inv mo s rs ->
  exists mo', monitor_run mo (run_trace (ReadAll reqs s (NopCloser rs))) = Some mo'.
Proof.
  induction reqs as [|n reqs IH]; intros mo s rs Hinv; simpl.
  - eauto.
  - unfold nopCloser_Read. simpl.
    destruct (monitor_accepts_Read n mo s rs Hinv) as (mo1 & Hrun & Hinv1).
    destruct (rr_ret (multiReader_Read n s rs)) as [[p e]|]; simpl; eauto.
    destruct e; simpl; eauto.
    rewrite monitor_run_app, Hrun. apply IH. exact Hinv1.
Qed.

Lemma stream_ordered (reqs : list nat) (h : Heap) (m : MultipartStreamer) :
  ordered (bodyBuffer m)
    (run_trace (ReadAll reqs {| st_heap := h; st_ms := m |} (GetReader m))) = true.
Proof.
  unfold ordered, GetReader, MultiReader_of.
  destruct (monitor_accepts_ReadAll reqs {| hdr_left := bodyBuffer m; payload_eof := false |}
              {| st_heap := h; st_ms := m |} [SrcBody; SrcPayload (reader m); SrcClose])
    as (mo' & E); [reflexivity|].
  rewrite E. reflexivity.
Qed.

(** *** A composer without payload: the call through the nil reader *)

Lemma ReadAll_cons (n : nat) (reqs : list nat) (s : Store) (rs : MultiReader) :
  ReadAll (n :: reqs) s (NopCloser rs) =
  let r := multiReader_Read n s rs in
  match rr_ret r with
  | None => mkRun [] (rr_events r) Panicked (rr_store r) (NopCloser (rr_readers r))
  | Some (p, NoErr) =>
      let k := ReadAll reqs (rr_store r) (NopCloser (rr_readers r)) in
      mkRun (p ++ run_out k) (rr_events r ++ run_trace k) (run_status k)
            (run_store k) (run_stream k)
  | Some (p, EOF) => mkRun p (rr_events r) Drained (rr_store r) (NopCloser (rr_readers r))
  | Some (p, Err msg) =>
      mkRun p (rr_events r) (Failed msg) (rr_store r) (NopCloser (rr_readers r))
  end.
Proof. reflexivity. Qed.

Lemma nil_stream_Read (n : nat) (h : Heap) (m : MultipartStreamer) :
  multiReader_Read n {| st_heap := h; st_ms := m |} nil_stream =
  match bodyBuffer m with
  | [] =>
      if Nat.eqb n 0
      then mkReadResult (Some ([], NoErr))
             {| st_heap := h; st_ms := set_bodyBuffer [] m |} nil_stream
             [EvRead SrcBody [] NoErr]
      else mkReadResult None
             {| st_heap := h; st_ms := set_bodyBuffer [] m |}
             [SrcPayload None; SrcClose]
             [EvRead SrcBody [] EOF; EvNilCall (SrcPayload None)]
  | b =>
      mkReadResult (Some (firstn n b, NoErr))
        {| st_heap := h; st_ms := set_bodyBuffer (skipn n b) m |} nil_stream
        [EvRead SrcBody (firstn n b) NoErr]
  end.
Proof.
  unfold nil_stream. cbn [multiReader_Read Src_Read st_ms st_heap].
  destruct (bodyBuffer m) as [|c b]; simpl.
  - destruct (Nat.eqb n 0); reflexivity.
  - reflexivity.
Qed.

(** whatever the consumer's buffer sizes, the stream of a composer without
    payload never reaches [io.EOF] and never emits a trailer byte *)
Lemma nil_payload_never_drains (reqs : list nat) :
  forall (h : Heap) (m : MultipartStreamer),
  let run := ReadAll reqs {| st_heap := h; st_ms := m |} (NopCloser nil_stream) in
  (run_status run = Reading \/ run_status run = Panicked) /\
  (exists rest, bodyBuffer m = run_out run ++ rest) /\
  emitted is_close (run_trace run) = [].
Proof.
  induction reqs as [|n reqs IH]; intros h m.
  - simpl. split; [auto|]. split; [exists (bodyBuffer m); reflexivity | reflexivity].
  - cbv zeta. rewrite ReadAll_cons, nil_stream_Read. cbv zeta.
    destruct (bodyBuffer m) as [|c b] eqn:Hb.
    + destruct (Nat.eqb n 0); cbn [rr_ret rr_store rr_readers rr_events].
      * specialize (IH h (set_bodyBuffer [] m)). cbv zeta in IH. simpl bodyBuffer in IH.
        destruct IH as (Hs & Hr & He).
        cbn [run_status run_out run_trace]. split; [exact Hs|]. split.
        -- exact Hr.
        -- simpl. exact He.
      * cbn [run_status run_out run_trace]. split; [auto|].
        split; [exists []; reflexivity | reflexivity].
    + cbn [rr_ret rr_store rr_readers rr_events].
      specialize (IH h (set_bodyBuffer (skipn n (c :: b)) m)). cbv zeta in IH.
      simpl bodyBuffer in IH. destruct IH as (Hs & [rest Hr] & He).
      cbn [run_status run_out run_trace]. split; [exact Hs|]. split.
      * exists rest. rewrite <- app_assoc, <- Hr. symmetry. apply firstn_skipn.
      * simpl. exact He.
Qed.

(** a consumer reading with non-empty buffers receives the header bytes
    and then panics *)
Lemma nil_payload_panics (k : nat) :
  forall (h : Heap) (m : MultipartStreamer) (size : nat -> nat),
  List.length (bodyBuffer m) <= k -> (forall i, 0 < size i) ->
  exists j,
    let run := ReadAll (requests size j) {| st_heap := h; st_ms := m |}
                       (NopCloser nil_stream) in
    run_status run = Panicked /\ run_out run = bodyBuffer m.
Proof.
  induction k as [|k IH]; intros h m size Hlen Hsize.
  - exists 1. rewrite requests_S. cbv zeta. rewrite ReadAll_cons, nil_stream_Read.
    destruct (bodyBuffer m) as [|c b]; [|simpl in Hlen; lia].
    destruct (Nat.eqb_spec (size 0) 0) as [E|_]; [specialize (Hsize 0); lia|].
    simpl. auto.
  - destruct (bodyBuffer m) as [|c b] eqn:Hb.
    + destruct (IH h m size) as (j & Hj); auto.
      * rewrite Hb. simpl. lia.
      * exists j. rewrite Hb in Hj. exact Hj.
    + destruct (IH h (set_bodyBuffer (skipn (size 0) (c :: b)) m) (fun i => size (S i)))
        as (j & Hs & Ho); auto.
      * simpl bodyBuffer. rewrite length_skipn. specialize (Hsize 0).
        simpl in Hlen. simpl List.length. lia.
      * exists (S j). rewrite requests_S. cbv zeta.
        rewrite ReadAll_cons, nil_stream_Read, Hb.
        cbn [rr_ret rr_store rr_readers rr_events]. cbv zeta.
        cbn [run_status run_out]. split; [exact Hs|].
        cbv zeta in Ho. rewrite Ho. simpl bodyBuffer. apply firstn_skipn.
Qed.

(** *** What reading does to the composer's own buffers *)

Lemma emitted_app (sel : Src -> bool) (t1 t2 : list Event) :
  emitted sel (t1 ++ t2) = emitted sel t1 ++ emitted sel t2.
Proof.
  induction t1 as [|[src p e|src] t1 IH]; simpl; auto.
  destruct (sel src); auto. rewrite IH, app_assoc. reflexivity.
Qed.

Lemma consumed_trans (t1 t2 : list Event) (m0 m1 m2 : MultipartStreamer) :
  consumed t1 m0 m1 -> consumed t2 m1 m2 -> consumed (t1 ++ t2) m0 m2.
Proof.
  intros (Hb1 & Hc1 & Hl1) (Hb2 & Hc2 & Hl2). unfold consumed.
  rewrite !emitted_app, !length_app, Hb2, Hc2, Hl2, Hb1, Hc1, Hl1.
  rewrite !skipn_skipn.
  repeat split; f_equal; lia.
Qed.

Lemma Src_Read_consumed (n : nat) (s s' : Store) (src : Src) (p : Bytes) (e : error) :
  Src_Read n s src = Some ((p, e), s') ->
  consumed [EvRead src p e] (st_ms s) (st_ms s').
Proof.
  destruct src as [|[a|]|]; simpl.
  - pose proof (bytes_Read_shape n (bodyBuffer (st_ms s))) as Hsh.
    destruct (bytes.Read n (bodyBuffer (st_ms s))) as [[p0 e0] b'].
    intros E; inversion E; subst; clear E.
    destruct Hsh as (_ & Hs & _). unfold consumed. simpl.
    rewrite app_nil_r, Hs. auto.
  - destruct (nth_error (st_heap s) a) as [o|]; [|discriminate].
    destruct (Obj_Read n o) as [[p0 e0] o'].
    intros E; inversion E; subst; clear E. unfold consumed. simpl. auto.
  - discriminate.
  - pose proof (bytes_Read_shape n (closeBuffer (st_ms s))) as Hsh.
    destruct (bytes.Read n (closeBuffer (st_ms s))) as [[p0 e0] b'].
    intros E; inversion E; subst; clear E.
    destruct Hsh as (_ & Hs & _). unfold consumed. simpl.
    rewrite app_nil_r, Hs. auto.
Qed.

Lemma consumed_refl (m : MultipartStreamer) : consumed [] m m.
Proof. unfold consumed. simpl. auto. Qed.

Lemma consumed_nilcall (src : Src) (m : MultipartStreamer) : consumed [EvNilCall src] m m.
Proof. unfold consumed. simpl. auto. Qed.

Lemma multiReader_Read_consumed (n : nat) (rs : MultiReader) :
  forall s : Store,
  let r := multiReader_Read n s rs in
  consumed (rr_events r) (st_ms s) (st_ms (rr_store r)).
Proof.
  induction rs as [|src rs IH]; intros s; simpl.
  - apply consumed_refl.
  - destruct (Src_Read n s src) as [[[p e] s']|] eqn:E.
    + pose proof (Src_Read_consumed n s s' src p e E) as H1.
      destruct e; simpl; auto.
      destruct p as [|c p]; simpl; auto.
      change (EvRead src [] EOF :: rr_events (multiReader_Read n s' rs))
        with ([EvRead src [] EOF] ++ rr_events (multiReader_Read n s' rs)).
      eapply consumed_trans; [exact H1 | apply IH].
    + simpl. apply consumed_nilcall.
Qed.

Lemma ReadAll_consumed (reqs : list nat) :
  forall (s : Store) (rs : MultiReader),
  let run := ReadAll reqs s (NopCloser rs) in
  consumed (run_trace run) (st_ms s) (st_ms (run_store run)).
Proof.
  induction reqs as [|n reqs IH]; intros s rs.
  - simpl. apply consumed_refl.
  - cbv zeta. rewrite ReadAll_cons. cbv zeta.
    pose proof (multiReader_Read_consumed n rs s) as H1. cbv zeta in H1.
    destruct (rr_ret (multiReader_Read n s rs)) as [[p e]|]; simpl; auto.
    destruct e; simpl; auto.
    eapply consumed_trans; [exact H1 | apply IH].
Qed.

Lemma wrap64_small (z : Z) : in_int64 z -> wrap64 z = z.
Proof.
  unfold in_int64, wrap64. intros H.
  rewrite Z.mod_small; lia.
Qed.

Lemma wrap64_idem_l (a b : Z) : wrap64 (wrap64 a + b) = wrap64 (a + b).
Proof.
  unfold wrap64.
  replace ((a + 2 ^ 63) mod 2 ^ 64 - 2 ^ 63 + b + 2 ^ 63)%Z
    with ((a + 2 ^ 63) mod 2 ^ 64 + b)%Z by lia.
  rewrite Zplus_mod_idemp_l.
  f_equal. f_equal. lia.
Qed.

Lemma Len_sum (m : MultipartStreamer) :
  Len m = wrap64 (contentLength m + Z.of_nat (List.length (bodyBuffer m))
                  + Z.of_nat (List.length (closeBuffer m))).
Proof.
  unfold Len, add64, bytes.Len. apply wrap64_idem_l.
Qed.

(** *** Reads touch no heap object but the payload's, and close no file *)

Lemma Obj_Read_keeps_open (n : nat) (o : Obj) :
  file_is_open o = true -> file_is_open (snd (Obj_Read n o)) = true.
Proof.
  destruct o as [f|T impl v]; simpl; [|discriminate].
  intros Hc. apply negb_true_iff in Hc.
  unfold Read, File_Reader, os.File_Read. rewrite Hc.
  destruct (Nat.eqb n 0); simpl; [rewrite Hc; reflexivity|].
  destruct (skipn (os.pos f) (os.content (os.node f))); simpl;
    rewrite ?Hc; reflexivity.
Qed.

Lemma Src_Read_keeps_open (n : nat) (s s' : Store) (src : Src) (r : Bytes * error)
    (a : nat) :
  Src_Read n s src = Some (r, s') ->
  handle_open (st_heap s) a = true -> handle_open (st_heap s') a = true.
Proof.
  destruct src as [|[a'|]|]; simpl.
  - destruct (bytes.Read n (bodyBuffer (st_ms s))). intros E; inversion E; auto.
  - destruct (nth_error (st_heap s) a') as [o|] eqn:Ha'; [|discriminate].
    pose proof (Obj_Read_keeps_open n o) as Hk.
    destruct (Obj_Read n o) as [r0 o'].
    intros E; inversion E; subst; clear E. simpl.
    unfold handle_open. destruct (Nat.eq_dec a' a) as [->|Hne].
    + rewrite Ha'. rewrite (heap_update_same _ _ _ o' Ha'). exact Hk.
    + rewrite heap_update_other by exact Hne. auto.
  - discriminate.
  - destruct (bytes.Read n (closeBuffer (st_ms s))). intros E; inversion E; auto.
Qed.

Lemma multiReader_Read_keeps_open (n : nat) (a : nat) (rs : MultiReader) :
  forall s : Store,
  handle_open (st_heap s) a = true ->
  handle_open (st_heap (rr_store (multiReader_Read n s rs))) a = true.
Proof.
  induction rs as [|src rs IH]; intros s H; simpl; auto.
  destruct (Src_Read n s src) as [[[p e] s']|] eqn:E; simpl; auto.
  pose proof (Src_Read_keeps_open n s s' src (p, e) a E H) as H1.
  destruct e; simpl; auto.
  destruct p; simpl; auto.
Qed.

Lemma stream_ops_keep_open (ops : list StreamOp) (a : nat) :
  forall st : Store * nopCloser,
  handle_open (st_heap (fst st)) a = true ->
  handle_open (st_heap (fst (stream_ops ops st))) a = true.
Proof.
  unfold stream_ops.
  induction ops as [|op ops IH]; intros st H; simpl; auto.
  apply IH. destruct op as [n|]; simpl; auto.
  apply multiReader_Read_keeps_open. exact H.
Qed.

(** *** The build phase *)

Lemma same_frame_refl (m : MultipartStreamer) : same_frame m m.
Proof. unfold same_frame; auto. Qed.

Lemma same_frame_trans (m1 m2 m3 : MultipartStreamer) :
  same_frame m1 m2 -> same_frame m2 m3 -> same_frame m1 m3.
Proof.
  unfold same_frame. intros (?&?&?&?&?) (?&?&?&?&?).
  repeat split; congruence.
Qed.

Lemma CreatePart_ok (h : textproto.MIMEHeader) (w : multipart.Writer) (out : bytes.Buffer) :
  writer_ok w ->
  multipart.CreatePart h w out =
  (({| multipart.boundary := multipart.boundary w;
       multipart.lastpart := Some multipart.new_part |},
    out ++ bytes_of (delimiter w +++ multipart.header_lines h +++ crlf)), NoErr).
Proof.
  unfold writer_ok, multipart.CreatePart, delimiter, bytes.WriteString.
  intros [E|E]; rewrite E; reflexivity.
Qed.

Lemma CreatePart_boundary (h : textproto.MIMEHeader) (w : multipart.Writer) (out : bytes.Buffer) :
  multipart.boundary (fst (fst (multipart.CreatePart h w out))) = multipart.boundary w.
Proof.
  unfold multipart.CreatePart. destruct (multipart.lastpart w) as [p|]; [|reflexivity].
  destruct (multipart.we p); reflexivity.
Qed.

Lemma write_part_ok (d : Bytes) (w : multipart.Writer) (out : bytes.Buffer) :
  multipart.write_part d multipart.new_part w out =
  ((part_writer w, out ++ d), NoErr).
Proof. reflexivity. Qed.

Lemma write_part_boundary (d : Bytes) (p : multipart.part) (w : multipart.Writer)
    (out : bytes.Buffer) :
  multipart.boundary (fst (fst (multipart.write_part d p w out))) = multipart.boundary w.
Proof.
  unfold multipart.write_part.
  destruct (multipart.part_Write d p out) as [[p' out'] err]. reflexivity.
Qed.

Lemma with_writer_frame (m : MultipartStreamer)
    (r : (multipart.Writer * bytes.Buffer) * error) :
  multipart.boundary (fst (fst r)) = multipart.boundary (bodyWriter m) ->
  same_frame m (fst (with_writer m r)).
Proof.
  destruct r as [[w out] err]. simpl. unfold same_frame. simpl. auto.
Qed.

Lemma WriteField_boundary (k v : string) (w : multipart.Writer) (out : bytes.Buffer) :
  multipart.boundary (fst (fst (multipart.WriteField k v w out))) = multipart.boundary w.
Proof.
  unfold multipart.WriteField, multipart.CreateFormField.
  pose proof (CreatePart_boundary
    (textproto.Set_ "Content-Disposition"
       ("form-data; name=" +++ dq +++ multipart.escapeQuotes k +++ dq) textproto.make) w out) as H.
  destruct (multipart.CreatePart _ w out) as [[w1 out1] err]. simpl in H.
  destruct err; simpl; auto.
Qed.

Lemma WriteFields_frame (fields : list (string * string)) :
  forall m, same_frame m (fst (WriteFields fields m)).
Proof.
  induction fields as [|[k v] fields IH]; intros m; simpl.
  - apply same_frame_refl.
  - pose proof (with_writer_frame m
      (multipart.WriteField k v (bodyWriter m) (bodyBuffer m))
      (WriteField_boundary k v _ _)) as H.
    destruct (with_writer m _) as [m' err]. simpl in H.
    destruct err; simpl; auto.
    eapply same_frame_trans; [exact H | apply IH].
Qed.

Lemma WritePart_frame (fieldname : string) (data : CopySource)
    (headers : list (string * string)) (m : MultipartStreamer) :
  same_frame m (fst (WritePart fieldname data headers m)).
Proof.
  unfold WritePart.
  set (h := fold_left _ headers _).
  pose proof (with_writer_frame m (multipart.CreatePart h (bodyWriter m) (bodyBuffer m))
                (CreatePart_boundary h _ _)) as H.
  destruct (with_writer m _) as [m' err]. simpl in H.
  destruct err; simpl; auto.
  eapply same_frame_trans; [exact H|].
  apply with_writer_frame. unfold io_Copy_to_part.
  destruct (src_bytes data) as [|c d]; [reflexivity|].
  pose proof (write_part_boundary (c :: d) multipart.new_part (bodyWriter m')
                (bodyBuffer m')) as Hb.
  destruct (multipart.write_part _ _ _ _) as [r werr]. simpl in Hb.
  destruct werr; exact Hb.
Qed.

Lemma build_frame (ops : list BuildOp) :
  forall m, same_frame m (build ops m).
Proof.
  unfold build.
  induction ops as [|op ops IH]; intros m; simpl.
  - apply same_frame_refl.
  - eapply same_frame_trans; [|apply IH].
    destruct op; simpl; [apply WriteFields_frame | apply WritePart_frame].
Qed.

(** *** Registration *)

Lemma WriteReader_fields (key filename : string) (size : Z) (r : ReaderRef)
    (m : MultipartStreamer) :
  let m' := fst (WriteReader key filename size r m) in
  reader m' = r /\ contentLength m' = size /\ closeBuffer m' = closeBuffer m /\
  ContentType m' = ContentType m.
Proof.
  unfold WriteReader.
  destruct (multipart.CreateFormFile _ _ _ _) as [[w out] err]. simpl. auto.
Qed.

Lemma WriteReaderWithHeaders_fields (key filename : string) (r : ReaderRef)
    (headers : list (string * any)) (m m' : MultipartStreamer) (err : error) :
  WriteReaderWithHeaders key filename r headers m = Returns m' err ->
  reader m' = r /\ map_lookup "Content-Length" headers = Some (AInt64 (contentLength m')) /\
  closeBuffer m' = closeBuffer m /\ ContentType m' = ContentType m.
Proof.
  unfold WriteReaderWithHeaders.
  destruct (map_lookup "Content-Length" headers) as [[n| | | | |]|]; try discriminate.
  destruct (multipart.CreatePart _ _ _) as [[w out] e]. simpl.
  intros E; inversion E; subst; clear E. simpl. auto.
Qed.

Lemma register_fields (reg : Registration) (m m' : MultipartStreamer) (err : error) :
  register reg m = Returns m' err ->
  reader m' = reg_reader reg /\ reg_size reg = Some (contentLength m') /\
  closeBuffer m' = closeBuffer m /\ ContentType m' = ContentType m.
Proof.
  destruct reg as [key filename size r | key filename size r | key filename r headers]; simpl.
  - pose proof (WriteReader_fields key filename size r m) as H. cbv zeta in H.
    destruct (WriteReader key filename size r m) as [m1 e1]. simpl in H.
    intros E; inversion E; subst; clear E.
    destruct H as (?&?&?&?). repeat split; auto. congruence.
  - unfold WriteReaderWithSize. intros E.
    apply WriteReaderWithHeaders_fields in E. simpl in E.
    destruct E as (?&E&?&?). inversion E. repeat split; auto.
  - intros E. apply WriteReaderWithHeaders_fields in E.
    destruct E as (?&E&?&?). rewrite E. auto.
Qed.

(** *** The first of two sources is never touched *)

Lemma multiReader_Read_other (n a a1 : nat) (rs : MultiReader) :
  forall s : Store,
  only_ref a rs -> a1 <> a ->
  let r := multiReader_Read n s rs in
  nth_error (st_heap (rr_store r)) a1 = nth_error (st_heap s) a1 /\
  only_ref a (rr_readers r).
Proof.
  induction rs as [|src rs IH]; intros s Hrs Hne; simpl.
  - auto.
  - inversion Hrs as [|? ? Hsrc Hrest]; subst.
    assert (Hstep : forall r s', Src_Read n s src = Some (r, s') ->
                    nth_error (st_heap s') a1 = nth_error (st_heap s) a1).
    { destruct src as [|[a'|]|]; simpl.
      - intros r s'. destruct (bytes.Read n _). intros E; inversion E; auto.
      - intros r s'. destruct (nth_error (st_heap s) a'); [|discriminate].
        destruct (Obj_Read n o). intros E; inversion E; subst; simpl.
        apply heap_update_other. congruence.
      - discriminate.
      - intros r s'. destruct (bytes.Read n _). intros E; inversion E; auto. }
    destruct (Src_Read n s src) as [[[p e] s']|] eqn:E; simpl; auto.
    specialize (Hstep _ _ eq_refl).
    destruct e; simpl; auto.
    destruct p; simpl; auto.
    destruct (IH s' Hrest Hne) as [H1 H2]. split; [congruence|exact H2].
Qed.

Lemma ReadAll_other (reqs : list nat) (a a1 : nat) :
  forall (s : Store) (rs : MultiReader),
  only_ref a rs -> a1 <> a ->
  nth_error (st_heap (run_store (ReadAll reqs s (NopCloser rs)))) a1 =
  nth_error (st_heap s) a1.
Proof.
  induction reqs as [|n reqs IH]; intros s rs Hrs Hne.
  - reflexivity.
  - rewrite ReadAll_cons. cbv zeta.
    destruct (multiReader_Read_other n a a1 rs s Hrs Hne) as [H1 H2].
    destruct (rr_ret (multiReader_Read n s rs)) as [[p e]|]; simpl; auto.
    destruct e; simpl; auto.
    rewrite IH by auto. exact H1.
Qed.

(** *** Quoting *)

Lemma HasPrefix_empty (s : string) : strings.HasPrefix s EmptyString = true.
Proof. destruct s; reflexivity. Qed.

Lemma lookupOld_quoteEscaper (c : ascii) (s : string) :
  strings.lookupOld quoteEscaper (String c s) =
  if Ascii.eqb BACKSLASH c then Some ("\", "\\")
  else if Ascii.eqb DQUOTE c then Some (dq, "\" +++ dq)
  else None.
Proof.
  unfold quoteEscaper, strings.NewReplacer, dq, BACKSLASH.
  cbn -[Ascii.eqb DQUOTE].
  rewrite !HasPrefix_empty, !andb_true_r. reflexivity.
Qed.

Lemma escapeQuotes_quoted (s : string) : escapeQuotes s = quoted s.
Proof.
  unfold escapeQuotes, strings.Replace.
  induction s as [|c s IH]; [reflexivity|].
  cbn [strings.replaceFrom quoted]. rewrite lookupOld_quoteEscaper.
  unfold quoted_byte.
  rewrite (Ascii.eqb_sym c BACKSLASH), (Ascii.eqb_sym c DQUOTE).
  destruct (Ascii.eqb BACKSLASH c).
  - simpl. rewrite IH. reflexivity.
  - destruct (Ascii.eqb DQUOTE c); simpl; rewrite IH; reflexivity.
Qed.

(** *** The header block holds the Content-Disposition line *)

Lemma lookup_assign_same (k : string) (vs : list string) (h : textproto.MIMEHeader) :
  textproto.lookup k (textproto.assign k vs h) = vs.
Proof.
  induction h as [|[k' vs'] h IH]; simpl.
  - rewrite String.eqb_refl. reflexivity.
  - destruct (String.eqb k k') eqn:E; simpl; rewrite ?String.eqb_refl, ?E; auto.
Qed.

Lemma lookup_assign_other (k k' : string) (vs : list string) (h : textproto.MIMEHeader) :
  String.eqb k' k = false ->
  textproto.lookup k (textproto.assign k' vs h) = textproto.lookup k h.
Proof.
  intros Hne. rewrite String.eqb_sym in Hne.
  induction h as [|[k0 vs0] h IH]; simpl.
  - rewrite Hne. reflexivity.
  - destruct (String.eqb k' k0) eqn:E; simpl.
    + apply String.eqb_eq in E. subst k0. rewrite Hne. reflexivity.
    + destruct (String.eqb k k0); auto.
Qed.

Lemma keys_assign (k k' : string) (vs : list string) (h : textproto.MIMEHeader) :
  In k (textproto.keys h) -> In k (textproto.keys (textproto.assign k' vs h)).
Proof.
  unfold textproto.keys.
  induction h as [|[k0 vs0] h IH]; simpl; [tauto|].
  destruct (String.eqb k' k0) eqn:E; simpl.
  - apply String.eqb_eq in E. subst k0. tauto.
  - intros [H|H]; auto.
Qed.

Section HeaderFold.

Variable V : Type.
Variable show : V -> string.

Lemma fold_Set_disposition (headers : list (string * V)) :
  forall h : textproto.MIMEHeader,
  overrides_disposition (map fst headers) = false ->
  In "Content-Disposition" (textproto.keys h) ->
  let h' := fold_left (fun h kv => textproto.Set_ (fst kv) (show (snd kv)) h) headers h in
  textproto.lookup "Content-Disposition" h' = textproto.lookup "Content-Disposition" h /\
  In "Content-Disposition" (textproto.keys h').
Proof.
  induction headers as [|[k v] headers IH]; intros h Hno Hin; simpl.
  - auto.
  - simpl in Hno. apply orb_false_iff in Hno. destruct Hno as [Hk Hno].
    destruct (IH (textproto.Set_ k (show v) h) Hno) as [H1 H2].
    + apply keys_assign. exact Hin.
    + split; [|exact H2]. cbv zeta in H1. rewrite H1.
      apply lookup_assign_other. exact Hk.
Qed.

End HeaderFold.

Lemma sort_insert_In (k x : string) (l : list string) :
  In k (sort.insert x l) <-> k = x \/ In k l.
Proof.
  induction l as [|y l IH]; simpl.
  - intuition congruence.
  - destruct (String.leb x y); simpl; rewrite ?IH; intuition congruence.
Qed.

Lemma sort_Strings_In (k : string) (l : list string) :
  In k (sort.Strings l) <-> In k l.
Proof.
  unfold sort.Strings.
  induction l as [|x l IH]; simpl; [tauto|].
  rewrite sort_insert_In, IH. intuition congruence.
Qed.

Lemma append_assoc (a b c : string) : (a +++ b) +++ c = a +++ (b +++ c).
Proof. induction a as [|x a IH]; simpl; [reflexivity | rewrite IH; reflexivity]. Qed.

Lemma append_nil_r (a : string) : a +++ EmptyString = a.
Proof. induction a as [|x a IH]; simpl; [reflexivity | rewrite IH; reflexivity]. Qed.

Lemma concat_cons (x : string) (l : list string) :
  String.concat EmptyString (x :: l) = x +++ String.concat EmptyString l.
Proof.
  destruct l; simpl; [rewrite append_nil_r|]; reflexivity.
Qed.

Lemma concat_app (l1 l2 : list string) :
  String.concat EmptyString (l1 ++ l2) =
  String.concat EmptyString l1 +++ String.concat EmptyString l2.
Proof.
  induction l1 as [|x l1 IH]; [reflexivity|].
  rewrite <- app_comm_cons, !concat_cons, IH, append_assoc. reflexivity.
Qed.

Lemma bytes_of_app (a b : string) : bytes_of (a +++ b) = bytes_of a ++ bytes_of b.
Proof.
  unfold bytes_of. induction a as [|x a IH]; simpl; [reflexivity | rewrite IH; reflexivity].
Qed.

Lemma header_lines_hold (h : textproto.MIMEHeader) (k v : string) :
  In k (textproto.keys h) -> textproto.lookup k h = [v] ->
  exists pre post,
    multipart.header_lines h = pre +++ multipart.header_line k v +++ post.
Proof.
  intros Hin Hv. unfold multipart.header_lines.
  apply sort_Strings_In in Hin. apply in_split in Hin.
  destruct Hin as (l1 & l2 & E). rewrite E.
  rewrite flat_map_app. simpl. rewrite Hv. simpl.
  rewrite concat_app, concat_cons. eauto.
Qed.

(** *** Composers the package can produce *)

Lemma part_writer_ok (w : multipart.Writer) : writer_ok (part_writer w).
Proof. right. reflexivity. Qed.

Lemma SetBoundary_lastpart (b : string) (w : multipart.Writer) :
  multipart.lastpart (fst (multipart.SetBoundary b w)) = multipart.lastpart w.
Proof.
  unfold multipart.SetBoundary.
  destruct (multipart.lastpart w) eqn:E; simpl; auto.
  destruct (_ || _); simpl; auto.
  destruct (multipart.boundary_chars_ok b); simpl; auto.
Qed.

Lemma options_lastpart (bs : list string) :
  forall m, multipart.lastpart
              (bodyWriter (fold_left (fun m fopt => fopt m) (map WithBoundary bs) m)) =
            multipart.lastpart (bodyWriter m).
Proof.
  induction bs as [|b bs IH]; intros m; simpl; auto.
  rewrite IH. simpl. apply SetBoundary_lastpart.
Qed.

Lemma New_writer_ok (random : string) (bs : list string) :
  writer_ok (bodyWriter (New random (map WithBoundary bs))).
Proof.
  left. unfold New. simpl. rewrite options_lastpart. reflexivity.
Qed.

Lemma WriteField_ok (k v : string) (w : multipart.Writer) (out : bytes.Buffer) :
  writer_ok w ->
  exists h,
    multipart.WriteField k v w out =
    ((part_writer w, out ++ part_header h w ++ bytes_of v), NoErr).
Proof.
  intros Hok. unfold multipart.WriteField, multipart.CreateFormField.
  eexists. rewrite CreatePart_ok by exact Hok.
  cbv beta iota zeta. rewrite write_part_ok.
  unfold part_header, part_writer. rewrite <- app_assoc. reflexivity.
Qed.

Lemma WriteFields_ok (fields : list (string * string)) :
  forall m, writer_ok (bodyWriter m) ->
  writer_ok (bodyWriter (fst (WriteFields fields m))) /\
  snd (WriteFields fields m) = NoErr.
Proof.
  induction fields as [|[k v] fields IH]; intros m Hok; simpl; auto.
  destruct (WriteField_ok k v (bodyWriter m) (bodyBuffer m) Hok) as [h E].
  rewrite E. simpl. apply IH. simpl. apply part_writer_ok.
Qed.

Lemma WritePart_ok (fieldname : string) (data : CopySource)
    (headers : list (string * string)) (m : MultipartStreamer) :
  writer_ok (bodyWriter m) ->
  let r := WritePart fieldname data headers m in
  bodyBuffer (fst r) =
    bodyBuffer m ++ part_header (WritePart_header fieldname headers) (bodyWriter m)
                 ++ src_bytes data /\
  bodyWriter (fst r) = part_writer (bodyWriter m) /\
  snd r = src_err data.
Proof.
  intros Hok. unfold WritePart. fold (WritePart_header fieldname headers).
  rewrite CreatePart_ok by exact Hok. simpl.
  unfold io_Copy_to_part.
  destruct (src_bytes data) as [|c d] eqn:Hd; simpl.
  - rewrite app_nil_r. auto.
  - unfold bytes.Write, part_header. rewrite <- app_assoc. auto.
Qed.

Lemma WriteReaderWithHeaders_ok (key filename : string) (r : ReaderRef)
    (headers : list (string * any)) (m : MultipartStreamer) (n : Z) :
  writer_ok (bodyWriter m) ->
  map_lookup "Content-Length" headers = Some (AInt64 n) ->
  exists m',
    WriteReaderWithHeaders key filename r headers m = Returns m' NoErr /\
    bodyBuffer m' =
      bodyBuffer m ++ part_header (WithHeaders_header key filename headers) (bodyWriter m) /\
    bodyWriter m' = part_writer (bodyWriter m).
Proof.
  intros Hok Hn. unfold WriteReaderWithHeaders. rewrite Hn.
  fold (WithHeaders_header key filename headers). simpl.
  rewrite CreatePart_ok by exact Hok. simpl. eauto.
Qed.

Lemma WriteReader_ok (key filename : string) (size : Z) (r : ReaderRef)
    (m : MultipartStreamer) :
  writer_ok (bodyWriter m) ->
  bodyWriter (fst (WriteReader key filename size r m)) = part_writer (bodyWriter m) /\
  snd (WriteReader key filename size r m) = NoErr.
Proof.
  intros Hok. unfold WriteReader, multipart.CreateFormFile. simpl.
  rewrite CreatePart_ok by exact Hok. simpl. auto.
Qed.

Lemma Reachable_writer_ok (m : MultipartStreamer) :
  Reachable m -> writer_ok (bodyWriter m).
Proof.
  induction 1 as [random bs | op m Hm IH | reg m m' err Hm IH Hreg].
  - apply New_writer_ok.
  - destruct op as [fields | fieldname data headers]; simpl.
    + apply WriteFields_ok, IH.
    + destruct (WritePart_ok fieldname data headers m IH) as (_ & E & _).
      rewrite E. apply part_writer_ok.
  - destruct reg as [key filename size r | key filename size r | key filename r headers];
      simpl in Hreg.
    + destruct (WriteReader_ok key filename size r m IH) as [E _].
      destruct (WriteReader key filename size r m) as [m1 e1].
      inversion Hreg; subst. simpl in E. rewrite E. apply part_writer_ok.
    + unfold WriteReaderWithSize in Hreg.
      destruct (WriteReaderWithHeaders_ok key filename r
                  [ ("Content-Type", AString "application/octet-stream");
                    ("Content-Length", AInt64 size) ] m size IH eq_refl)
        as (m1 & E & _ & Hw).
      rewrite E in Hreg. inversion Hreg; subst. rewrite Hw. apply part_writer_ok.
    + destruct (map_lookup "Content-Length" headers) as [[n| | | | |]|] eqn:Hn;
        try (unfold WriteReaderWithHeaders in Hreg; rewrite Hn in Hreg; discriminate).
      destruct (WriteReaderWithHeaders_ok key filename r headers m n IH Hn)
        as (m1 & E & _ & Hw).
      rewrite E in Hreg. inversion Hreg; subst. rewrite Hw. apply part_writer_ok.
Qed.

(** *** Readers that yield their content *)

Lemma SliceReader_Yields_bounded (k : nat) :
  forall data : Bytes, List.length data <= k ->
  Yields (OReader SliceReader SliceReader_Reader (mkSliceReader data)) data.
Proof.
  unfold Yields.
  induction k as [|k IH]; intros data Hlen.
  - destruct data as [|c d]; [|simpl in Hlen; lia].
    constructor.
    + intros n _. do 3 eexists. split; reflexivity.
    + intros n p s' _ E. discriminate.
  - destruct data as [|c d].
    + apply IH. simpl. lia.
    + constructor.
      * intros n Hn. do 3 eexists. split; [reflexivity|].
        apply (firstn_length_firstn n (c :: d)).
      * intros n p s' Hn E.
        assert (E' : p = firstn n (c :: d) /\
                     s' = OReader SliceReader SliceReader_Reader
                            (mkSliceReader (skipn n (c :: d)))).
        { cbn in E. inversion E; subst. auto. }
        destruct E' as [-> ->].
        rewrite (skipn_length_firstn n (c :: d)).
        apply IH. rewrite length_skipn. simpl List.length in *. lia.
Qed.

Lemma SliceReader_Yields (data : Bytes) :
  Yields (OReader SliceReader SliceReader_Reader (mkSliceReader data)) data.
Proof. apply (SliceReader_Yields_bounded (List.length data)). lia. Qed.

(** *** The composer [New] returns *)

Lemma options_frame (bs : list string) :
  forall m,
  let m' := fold_left (fun m fopt => fopt m) (map WithBoundary bs) m in
  reader m' = reader m /\ contentLength m' = contentLength m /\
  bodyBuffer m' = bodyBuffer m.
Proof.
  induction bs as [|b bs IH]; intros m; simpl; auto.
  destruct (IH (WithBoundary b m)) as (H1 & H2 & H3). simpl in *. auto.
Qed.

Lemma New_fields (random : string) (bs : list string) :
  let m := New random (map WithBoundary bs) in
  reader m = None /\ contentLength m = 0%Z /\ bodyBuffer m = [].
Proof.
  unfold New. simpl. apply (options_frame bs).
Qed.

Lemma build_no_payload (random : string) (bs : list string) (ops : list BuildOp) :
  let m := build ops (New random (map WithBoundary bs)) in
  reader m = None /\ contentLength m = 0%Z.
Proof.
  cbv zeta.
  destruct (build_frame ops (New random (map WithBoundary bs))) as (_ & _ & Hr & Hl & _).
  destruct (New_fields random bs) as (Hr0 & Hl0 & _).
  rewrite Hr, Hl. auto.
Qed.

(** C10. For every string [b], [New(WithBoundary(b))] returns a composer
    (there is no error result).  Its boundary is [b] when the multipart
    writer's [SetBoundary] accepts [b], and the generated default otherwise;
    in both cases [ContentType], the trailer buffer and [Boundary()] carry
    that one token. *)
Theorem C10_boundary_token (random b : string) :
  let m := New random [WithBoundary b] in
  Boundary m =
    (if error_eqb (snd (multipart.SetBoundary b (multipart.NewWriter random))) NoErr
     then b else random) /\
  ContentType m = "multipart/form-data; boundary=" +++ Boundary m /\
  closeBuffer m = bytes_of (crlf +++ "--" +++ Boundary m +++ "--" +++ crlf).
Proof.
  cbv zeta. split; [|split; reflexivity].
  unfold New, Boundary, multipart.Boundary. simpl.
  unfold multipart.SetBoundary. simpl.
  destruct (_ || _); simpl; [reflexivity|].
  destruct (multipart.boundary_chars_ok b); reflexivity.
Qed.

(** C9. [WriteReaderWithHeaders] returns exactly when the headers map binds
    "Content-Length" to an [int64]; for every other map (the key missing,
    or bound to a value of another type such as [int]) it panics in the
    type assertion, with nothing written: the header buffer, the writer and
    the content length are as before (the [reader] field alone has been
    assigned). *)
Theorem C9_content_length_assertion (key filename : string) (r : ReaderRef)
    (headers : list (string * any)) (m : MultipartStreamer) :
  let res := WriteReaderWithHeaders key filename r headers m in
  ((exists m' err, res = Returns m' err) <->
   (exists n, map_lookup "Content-Length" headers = Some (AInt64 n))) /\
  ((exists msg, res = Panics (set_reader r m) msg) <->
   ~ (exists n, map_lookup "Content-Length" headers = Some (AInt64 n))) /\
  bodyBuffer (set_reader r m) = bodyBuffer m /\
  bodyWriter (set_reader r m) = bodyWriter m /\
  contentLength (set_reader r m) = contentLength m.
Proof.
  cbv zeta. split; [|split; [|repeat split]].
  - unfold WriteReaderWithHeaders.
    destruct (map_lookup "Content-Length" headers) as [[n| | | | |]|];
      try (split; [intros (m' & err & E); discriminate | intros (z & E); discriminate]).
    destruct (with_writer _ _) as [m' err]. split; eauto.
  - unfold WriteReaderWithHeaders.
    destruct (map_lookup "Content-Length" headers) as [[n| | | | |]|];
      try (split; [intros _ (z & E); discriminate | intros _; eexists; reflexivity]).
    destruct (with_writer _ _) as [m' err].
    split; [intros (msg & E); discriminate | intros H; exfalso; apply H; eauto].
Qed.

(** [WriteReaderWithSize] passes its size as an [int64]: it never panics *)
Lemma WriteReaderWithSize_returns (key filename : string) (size : Z) (r : ReaderRef)
    (m : MultipartStreamer) :
  exists m' err,
    WriteReaderWithSize key filename size r m = Returns m' err /\
    contentLength m' = size /\ reader m' = r.
Proof.
  unfold WriteReaderWithSize, WriteReaderWithHeaders.
  replace (map_lookup "Content-Length"
             [("Content-Type", AString "application/octet-stream");
              ("Content-Length", AInt64 size)])
    with (Some (AInt64 size)) by reflexivity.
  destruct (multipart.CreatePart _ _ _) as [[w out] e]. simpl.
  do 2 eexists. split; [reflexivity|]. simpl. auto.
Qed.

Example WriteReaderWithHeaders_int_panics :
  WriteReaderWithHeaders "file" "a.txt" None [("Content-Length", AInt 5)] (New "R" []) =
  Panics (set_reader None (New "R" [])) "interface conversion: interface {} is not int64".
Proof. reflexivity. Qed.

Example WriteReaderWithHeaders_missing_panics :
  WriteReaderWithHeaders "file" "a.txt" None [("content-length", AInt64 5)] (New "R" []) =
  Panics (set_reader None (New "R" [])) "interface conversion: interface {} is not int64".
Proof. reflexivity. Qed.

(** *** Quoting in the Content-Disposition header *)

Lemma disposition_line (h : textproto.MIMEHeader) (value : string) (w : multipart.Writer) :
  textproto.lookup "Content-Disposition" h = [value] ->
  In "Content-Disposition" (textproto.keys h) ->
  exists pre post,
    part_header h w =
    bytes_of (delimiter w +++ pre) ++
    bytes_of (multipart.header_line "Content-Disposition" value) ++
    bytes_of (post +++ crlf).
Proof.
  intros Hv Hin.
  destruct (header_lines_hold h "Content-Disposition" value Hin Hv) as (pre & post & E).
  exists pre, post. unfold part_header. rewrite E.
  rewrite <- !bytes_of_app. f_equal.
  rewrite !append_assoc. reflexivity.
Qed.

(** C8, the counterexample: a field name holding a double quote, and a
    headers map whose key canonicalises to Content-Disposition.  The value
    from the map is the header written; the field name, quoted or not,
    appears nowhere. *)
Lemma C8_counterexample :
  let name := "a" +++ dq +++ "b" in
  let m := fst (WritePart name {| src_bytes := bytes_of "v"; src_err := NoErr |}
                  [("content-disposition", "inline")] (New "R" [WithBoundary "X"])) in
  bodyBuffer m =
    bytes_of ("--X" +++ crlf +++ "Content-Disposition: inline" +++ crlf +++ crlf +++ "v") /\
  String.index 0 ("\" +++ dq) (string_of_list_ascii (bodyBuffer m)) = None.
Proof. vm_compute. split; reflexivity. Qed.

Lemma canonical_disposition :
  textproto.CanonicalMIMEHeaderKey "Content-Disposition" = "Content-Disposition".
Proof. vm_compute. reflexivity. Qed.

Lemma Set_disposition_make (value : string) :
  textproto.Set_ "Content-Disposition" value textproto.make =
  [("Content-Disposition", [value])].
Proof. unfold textproto.Set_. rewrite canonical_disposition. reflexivity. Qed.

(** C8, as amended.  [escapeQuotes] turns every backslash into two
    backslashes and every double quote into backslash double-quote, and
    changes no other byte.  For every composer the package can produce,
    [WritePart] and [WriteReaderWithHeaders] write the header line
    Content-Disposition: form-data; name="..." (with ; filename="..." for
    the latter) carrying the names quoted that way, provided no key of the
    caller's headers map canonicalises to Content-Disposition. *)
Theorem C8_quoting :
  (forall s, escapeQuotes s = quoted s) /\
  (forall m fieldname data headers,
     Reachable m ->
     overrides_disposition (map fst headers) = false ->
     exists pre post,
       bodyBuffer (fst (WritePart fieldname data headers m)) =
       bodyBuffer m ++
       (bytes_of (delimiter (bodyWriter m) +++ pre) ++
        bytes_of (multipart.header_line "Content-Disposition"
                    ("form-data; name=" +++ dq +++ quoted fieldname +++ dq)) ++
        bytes_of (post +++ crlf)) ++
       src_bytes data) /\
  (forall m key filename r headers n,
     Reachable m ->
     map_lookup "Content-Length" headers = Some (AInt64 n) ->
     overrides_disposition (map fst headers) = false ->
     exists m' pre post,
       WriteReaderWithHeaders key filename r headers m = Returns m' NoErr /\
       bodyBuffer m' =
       bodyBuffer m ++
       (bytes_of (delimiter (bodyWriter m) +++ pre) ++
        bytes_of (multipart.header_line "Content-Disposition"
                    ("form-data; name=" +++ dq +++ quoted key +++ dq +++
                     "; filename=" +++ dq +++ quoted filename +++ dq)) ++
        bytes_of (post +++ crlf))).
Proof.
  split; [exact escapeQuotes_quoted|]. split.
  - intros m fieldname data headers Hm Hno.
    destruct (WritePart_ok fieldname data headers m (Reachable_writer_ok m Hm))
      as (Hb & _ & _).
    rewrite Hb. unfold WritePart_header. rewrite Set_disposition_make.
    destruct (fold_Set_disposition string (fun v => v) headers
                [("Content-Disposition",
                  ["form-data; name=" +++ dq +++ escapeQuotes fieldname +++ dq])] Hno)
      as [Hv Hin]; [left; reflexivity|].
    cbv zeta in Hv, Hin.
    destruct (disposition_line _ _ (bodyWriter m) Hv Hin) as (pre & post & E).
    exists pre, post. rewrite E, escapeQuotes_quoted. reflexivity.
  - intros m key filename r headers n Hm Hn Hno.
    destruct (WriteReaderWithHeaders_ok key filename r headers m n
                (Reachable_writer_ok m Hm) Hn) as (m' & E & Hb & _).
    unfold WithHeaders_header in Hb. rewrite Set_disposition_make in Hb.
    destruct (fold_Set_disposition any fmt.Sprint_v headers
                [("Content-Disposition",
                  ["form-data; name=" +++ dq +++ escapeQuotes key +++ dq +++
                   "; filename=" +++ dq +++ escapeQuotes filename +++ dq])] Hno)
      as [Hv Hin]; [left; reflexivity|].
    cbv zeta in Hv, Hin.
    destruct (disposition_line _ _ (bodyWriter m) Hv Hin) as (pre & post & E').
    exists m', pre, post. split; [exact E|].
    rewrite Hb, E', !escapeQuotes_quoted. reflexivity.
Qed.


Lemma C8_quoting_witness :
  exists pre post,
    bodyBuffer (fst (WritePart ("a" +++ dq +++ "b")
                       {| src_bytes := bytes_of "v"; src_err := NoErr |}
                       [("Content-Type", "text/plain")] (New "R" [WithBoundary "X"]))) =
    bodyBuffer (New "R" [WithBoundary "X"]) ++
    (bytes_of (delimiter (bodyWriter (New "R" [WithBoundary "X"])) +++ pre) ++
     bytes_of (multipart.header_line "Content-Disposition"
                 ("form-data; name=" +++ dq +++ quoted ("a" +++ dq +++ "b") +++ dq)) ++
     bytes_of (post +++ crlf)) ++
    bytes_of "v".
Proof.
  apply (proj1 (proj2 C8_quoting) (New "R" [WithBoundary "X"]) ("a" +++ dq +++ "b")
           {| src_bytes := bytes_of "v"; src_err := NoErr |}
           [("Content-Type", "text/plain")]).
  - exact (Reach_New "R" ["X"]).
  - vm_compute. reflexivity.
Defined.

(** *** Draining the stream of a composer with a payload *)

Lemma drains_with_payload (h : Heap) (m : MultipartStreamer) (a : nat) (o : Obj)
    (data : Bytes) (size : nat -> nat) :
  reader m = Some a -> nth_error h a = Some o -> Yields o data ->
  (forall i, 0 < size i) ->
  exists k,
    let run := ReadAll (requests size k) {| st_heap := h; st_ms := m |} (GetReader m) in
    run_status run = Drained /\
    run_out run = bodyBuffer m ++ data ++ closeBuffer m.
Proof.
  intros Hr Ha Hy Hsize.
  exact (Delivers_drains ({| st_heap := h; st_ms := m |}, MultiReader_of m) _
           (stream_delivers h m a o data Hr Ha Hy) size Hsize).
Qed.

(** the declared total, when it fits an [int64], is what [Len] returns and
    what the drained stream counts *)
Lemma Len_equals_drained (h : Heap) (m : MultipartStreamer) (a : nat) (o : Obj)
    (data : Bytes) (size : nat -> nat) :
  reader m = Some a -> nth_error h a = Some o -> Yields o data ->
  Z.of_nat (List.length data) = contentLength m ->
  (Z.of_nat (List.length (bodyBuffer m ++ data ++ closeBuffer m)) < 2 ^ 63)%Z ->
  (forall i, 0 < size i) ->
  exists k,
    let run := ReadAll (requests size k) {| st_heap := h; st_ms := m |} (GetReader m) in
    run_status run = Drained /\
    Z.of_nat (List.length (run_out run)) = Len m.
Proof.
  intros Hr Ha Hy Hlen Hfit Hsize.
  destruct (drains_with_payload h m a o data size Hr Ha Hy Hsize) as (k & Hs & Ho).
  exists k. cbv zeta in *. split; [exact Hs|].
  rewrite Ho, Len_sum, <- Hlen.
  rewrite !length_app in *. rewrite wrap64_small; [lia|].
  unfold in_int64. lia.
Qed.

(** The part of C1 the code keeps: after any build sequence and one
    registration that returns, with a source that yields exactly the
    declared number of bytes and a total below 2^63, [Len] is the number of
    bytes every consumer reading with non-empty buffers receives. *)
Theorem one_registration_Len_is_drained_length (random : string) (bs : list string)
    (ops : list BuildOp) (reg : Registration) (m' : MultipartStreamer) (err : error)
    (h : Heap) (a : nat) (o : Obj) (data : Bytes) (size : nat -> nat) :
  register reg (build ops (New random (map WithBoundary bs))) = Returns m' err ->
  reg_reader reg = Some a -> nth_error h a = Some o -> Yields o data ->
  reg_size reg = Some (Z.of_nat (List.length data)) ->
  (Z.of_nat (List.length (bodyBuffer m' ++ data ++ closeBuffer m')) < 2 ^ 63)%Z ->
  (forall i, 0 < size i) ->
  exists k,
    let run := ReadAll (requests size k) {| st_heap := h; st_ms := m' |} (GetReader m') in
    run_status run = Drained /\
    Z.of_nat (List.length (run_out run)) = Len m'.
Proof.
  intros Hreg Hr Ha Hy Hsz Hfit Hsize.
  destruct (register_fields reg _ m' err Hreg) as (Hr' & Hs' & _ & _).
  apply (Len_equals_drained h m' a o data size); auto; congruence.
Qed.

(** C2. For every composer with a registered payload source: in every run
    of the stream, whatever the consumer's buffer sizes, the payload source
    is called only once every header byte has been handed out, and the
    trailer buffer only after the payload source answered [io.EOF]
    ([ordered]); and when the source yields [data], every consumer reading
    with non-empty buffers drains the stream to exactly header bytes, then
    [data], then trailer bytes. *)
Theorem C2_order_and_concatenation (h : Heap) (m : MultipartStreamer) (a : nat)
    (o : Obj) (data : Bytes) :
  reader m = Some a -> nth_error h a = Some o -> Yields o data ->
  (forall reqs,
     ordered (bodyBuffer m)
       (run_trace (ReadAll reqs {| st_heap := h; st_ms := m |} (GetReader m))) = true) /\
  (forall size, (forall i, 0 < size i) ->
     exists k,
       let run := ReadAll (requests size k) {| st_heap := h; st_ms := m |} (GetReader m) in
       run_status run = Drained /\
       run_out run = bodyBuffer m ++ data ++ closeBuffer m /\
       ordered (bodyBuffer m) (run_trace run) = true).
Proof.
  intros Hr Ha Hy. split.
  - intros reqs. apply stream_ordered.
  - intros size Hsize.
    destruct (drains_with_payload h m a o data size Hr Ha Hy Hsize) as (k & Hs & Ho).
    exists k. cbv zeta. repeat split; auto. apply stream_ordered.
Qed.

Lemma C2_witness :
  exists k,
    let run := ReadAll (requests (fixed 16) k)
                 {| st_heap := hello_heap; st_ms := scenario "R" (Some 0) |}
                 (GetReader (scenario "R" (Some 0))) in
    run_status run = Drained /\
    run_out run = bodyBuffer (scenario "R" (Some 0)) ++ bytes_of "hello" ++
                  closeBuffer (scenario "R" (Some 0)) /\
    ordered (bodyBuffer (scenario "R" (Some 0))) (run_trace run) = true.
Proof.
  apply (proj2 (C2_order_and_concatenation hello_heap (scenario "R" (Some 0)) 0
                  (OReader SliceReader SliceReader_Reader (mkSliceReader (bytes_of "hello")))
                  (bytes_of "hello") eq_refl eq_refl (SliceReader_Yields _))
           (fixed 16)).
  intros i. unfold fixed. lia.
Defined.

(** *** No payload registered *)

(** C3, at the code: for every composer built without a registration,
    [Len] is header length plus trailer length, but no consumer ever drains
    the stream: no run reaches [io.EOF] or emits a trailer byte, and a
    consumer reading with a non-empty buffer receives the header bytes and
    then panics in the call through the nil [reader]. *)
Theorem C3_no_payload_stream_panics (random : string) (bs : list string)
    (ops : list BuildOp) (h : Heap) :
  let m := build ops (New random (map WithBoundary bs)) in
  let s := {| st_heap := h; st_ms := m |} in
  Len m = wrap64 (Z.of_nat (List.length (bodyBuffer m)) +
                  Z.of_nat (List.length (closeBuffer m))) /\
  (forall reqs,
     run_status (ReadAll reqs s (GetReader m)) <> Drained /\
     emitted is_close (run_trace (ReadAll reqs s (GetReader m))) = []) /\
  (forall n, exists j,
     let run := ReadAll (requests (fixed (S n)) j) s (GetReader m) in
     run_status run = Panicked /\ run_out run = bodyBuffer m).
Proof.
  cbv zeta.
  destruct (build_no_payload random bs ops) as [Hr Hl]. cbv zeta in Hr, Hl.
  set (m := build ops (New random (map WithBoundary bs))) in *.
  assert (Hs : GetReader m = NopCloser nil_stream).
  { unfold GetReader, MultiReader_of, nil_stream. rewrite Hr. reflexivity. }
  rewrite Hs. split; [|split].
  - rewrite Len_sum, Hl. f_equal.
  - intros reqs.
    destruct (nil_payload_never_drains reqs h m) as ([E|E] & _ & Hc);
      rewrite E; split; auto; discriminate.
  - intros n.
    apply (nil_payload_panics (List.length (bodyBuffer m)) h m (fixed (S n))); auto.
    intros i. unfold fixed. lia.
Qed.

(** C1, at the code: a composer with one field and no registration.  [Len]
    announces 59 bytes; the consumer receives the 50 header bytes and the
    next read panics. *)
Theorem C1_no_registration_mismatch :
  let m := build [OpWriteFields [("a", "b")]] (New "R" [WithBoundary "X"]) in
  let run := ReadAll (requests (fixed 4096) 2) {| st_heap := []; st_ms := m |}
               (GetReader m) in
  Len m = 59%Z /\
  run_status run = Panicked /\
  run_out run = bodyBuffer m /\
  List.length (run_out run) = 50.
Proof. vm_compute. repeat split; reflexivity. Qed.

(** *** The specification's scenario *)

Lemma scenario_body (random : string) (r : ReaderRef) :
  bodyBuffer (scenario random r) ++ bytes_of "hello" ++ closeBuffer (scenario random r) =
  bytes_of scenario_actual.
Proof. reflexivity. Qed.

(** C5, the counterexample: the scenario run on a reader over the bytes of
    hello.  The drained stream is not the string the specification gives,
    and [Len] is not that string's length: the file part carries a
    Content-Type header. *)
Lemma C5_counterexample :
  let m := scenario "R" (Some 0) in
  let run := ReadAll (requests (fixed 4096) 4) {| st_heap := hello_heap; st_ms := m |}
               (GetReader m) in
  run_status run = Drained /\
  run_out run = bytes_of scenario_actual /\
  run_out run <> bytes_of scenario_claimed /\
  Len m = 190%Z /\
  Z.of_nat (String.length scenario_claimed) = 150%Z.
Proof.
  cbv zeta. split; [vm_compute; reflexivity|]. split; [vm_compute; reflexivity|].
  split; [|split; vm_compute; reflexivity].
  intros E. apply (f_equal (@List.length ascii)) in E. vm_compute in E. discriminate E.
Qed.

(** C5, as amended: boundary X, field parameters = {"x":1}, and the payload
    registered by [WriteReader] with names file, file, length 5 and a source
    yielding hello.  Every consumer reading with non-empty buffers drains
    the stream to the specification's string with the line
    Content-Type: application/octet-stream after the file part's
    Content-Disposition line, and [Len] is the length of that string. *)
Theorem C5_scenario (random : string) (h : Heap) (a : nat) (o : Obj) (size : nat -> nat) :
  nth_error h a = Some o -> Yields o (bytes_of "hello") ->
  (forall i, 0 < size i) ->
  let m := scenario random (Some a) in
  exists k,
    let run := ReadAll (requests size k) {| st_heap := h; st_ms := m |} (GetReader m) in
    run_status run = Drained /\
    run_out run = bytes_of scenario_actual /\
    Len m = Z.of_nat (String.length scenario_actual).
Proof.
  intros Ha Hy Hsize. cbv zeta.
  destruct (drains_with_payload h (scenario random (Some a)) a o (bytes_of "hello") size
              eq_refl Ha Hy Hsize) as (k & Hs & Ho).
  exists k. cbv zeta in *. split; [exact Hs|]. split.
  - rewrite Ho. apply scenario_body.
  - reflexivity.
Qed.

Lemma C5_scenario_witness :
  exists k,
    let run := ReadAll (requests (fixed 7) k)
                 {| st_heap := hello_heap; st_ms := scenario "R" (Some 0) |}
                 (GetReader (scenario "R" (Some 0))) in
    run_status run = Drained /\
    run_out run = bytes_of scenario_actual /\
    Len (scenario "R" (Some 0)) = Z.of_nat (String.length scenario_actual).
Proof.
  apply (C5_scenario "R" hello_heap 0
           (OReader SliceReader SliceReader_Reader (mkSliceReader (bytes_of "hello")))
           (fixed 7) eq_refl (SliceReader_Yields _)).
  intros i. unfold fixed. lia.
Defined.

(** *** Len while the stream is read *)

(** C6, the counterexample: the scenario's composer announces 190 bytes;
    after one read with a 10-byte buffer [Len] returns 180, and after the
    stream is drained it returns 5, the payload length alone. *)
Lemma C6_counterexample :
  let m := scenario "R" (Some 0) in
  let s := {| st_heap := hello_heap; st_ms := m |} in
  Len m = 190%Z /\
  Len (st_ms (run_store (ReadAll [10] s (GetReader m)))) = 180%Z /\
  run_status (ReadAll (requests (fixed 4096) 4) s (GetReader m)) = Drained /\
  Len (st_ms (run_store (ReadAll (requests (fixed 4096) 4) s (GetReader m)))) = 5%Z.
Proof. vm_compute. repeat split; reflexivity. Qed.

(** C6, as amended.  [Len] returns (in [int64] arithmetic) the payload
    length plus the lengths of the header and trailer buffers as they stand
    when it is called.  Before the stream is read these are the lengths the
    build phase left.  Reading the stream empties the composer's own
    buffers: after any run, [Len] is lower by the number of header and
    trailer bytes handed out.  When a payload is registered whose source
    yields exactly [contentLength] bytes and the total fits an [int64], the
    value before reading is the number of bytes the drained stream counts. *)
Theorem C6_Len_tracks_buffers (h : Heap) (m : MultipartStreamer) (reqs : list nat) :
  let run := ReadAll reqs {| st_heap := h; st_ms := m |} (GetReader m) in
  Len m = wrap64 (contentLength m + Z.of_nat (List.length (bodyBuffer m))
                  + Z.of_nat (List.length (closeBuffer m))) /\
  Len (st_ms (run_store run)) =
    wrap64 (contentLength m
            + Z.of_nat (List.length (bodyBuffer m)
                        - List.length (emitted is_body (run_trace run)))
            + Z.of_nat (List.length (closeBuffer m)
                        - List.length (emitted is_close (run_trace run)))) /\
  (forall a o data size,
     reader m = Some a -> nth_error h a = Some o -> Yields o data ->
     Z.of_nat (List.length data) = contentLength m ->
     (Z.of_nat (List.length (bodyBuffer m ++ data ++ closeBuffer m)) < 2 ^ 63)%Z ->
     (forall i, 0 < size i) ->
     exists k,
       let full := ReadAll (requests size k) {| st_heap := h; st_ms := m |} (GetReader m) in
       run_status full = Drained /\
       Z.of_nat (List.length (run_out full)) = Len m).
Proof.
  cbv zeta. split; [apply Len_sum|]. split.
  - destruct (ReadAll_consumed reqs {| st_heap := h; st_ms := m |} (MultiReader_of m))
      as (Hb & Hc & Hl).
    unfold GetReader. simpl st_ms in *.
    rewrite Len_sum, Hb, Hc, Hl, !length_skipn. reflexivity.
  - intros a o data size. apply Len_equals_drained.
Qed.

Lemma C6_Len_tracks_buffers_witness :
  exists k,
    let m := scenario "R" (Some 0) in
    let full := ReadAll (requests (fixed 7) k) {| st_heap := hello_heap; st_ms := m |}
                  (GetReader m) in
    run_status full = Drained /\
    Z.of_nat (List.length (run_out full)) = Len m.
Proof.
  apply (proj2 (proj2 (C6_Len_tracks_buffers hello_heap (scenario "R" (Some 0)) []))
           0 (OReader SliceReader SliceReader_Reader (mkSliceReader (bytes_of "hello")))
           (bytes_of "hello") (fixed 7)).
  - reflexivity.
  - reflexivity.
  - apply SliceReader_Yields.
  - reflexivity.
  - vm_compute. reflexivity.
  - intros i. unfold fixed. lia.
Defined.

(** *** Two registrations *)

(** C7. After two registrations that return, with distinct sources, the
    composer's payload is the second source and its declared length the
    second length: [Len] is that length plus the buffers' lengths; every
    consumer reading with non-empty buffers drains the stream to header
    bytes, the second source's bytes, trailer bytes; and no run ever touches
    the first source. *)
Theorem C7_last_registration_wins (h : Heap) (m m1 m2 : MultipartStreamer)
    (reg1 reg2 : Registration) (e1 e2 : error) (a1 a2 : nat) (o2 : Obj)
    (data2 : Bytes) :
  register reg1 m = Returns m1 e1 ->
  register reg2 m1 = Returns m2 e2 ->
  reg_reader reg1 = Some a1 -> reg_reader reg2 = Some a2 -> a1 <> a2 ->
  nth_error h a2 = Some o2 -> Yields o2 data2 ->
  (exists size2,
     reg_size reg2 = Some size2 /\
     Len m2 = wrap64 (size2 + Z.of_nat (List.length (bodyBuffer m2))
                      + Z.of_nat (List.length (closeBuffer m2)))) /\
  (forall reqs,
     nth_error (st_heap (run_store
        (ReadAll reqs {| st_heap := h; st_ms := m2 |} (GetReader m2)))) a1 =
     nth_error h a1) /\
  (forall size, (forall i, 0 < size i) ->
     exists k,
       let run := ReadAll (requests size k) {| st_heap := h; st_ms := m2 |}
                    (GetReader m2) in
       run_status run = Drained /\
       run_out run = bodyBuffer m2 ++ data2 ++ closeBuffer m2).
Proof.
  intros H1 H2 Hr1 Hr2 Hne Ha Hy.
  destruct (register_fields reg2 m1 m2 e2 H2) as (Hr & Hs & _ & _).
  rewrite Hr2 in Hr.
  split; [|split].
  - exists (contentLength m2). split; [exact Hs | apply Len_sum].
  - intros reqs. apply (ReadAll_other reqs a2 a1); auto.
    unfold MultiReader_of, only_ref. rewrite Hr. repeat constructor.
  - intros size Hsize. apply (drains_with_payload h m2 a2 o2 data2 size); auto.
Qed.

Lemma C7_last_registration_wins_witness :
  exists k,
    let h := [OReader SliceReader SliceReader_Reader (mkSliceReader (bytes_of "first"));
              OReader SliceReader SliceReader_Reader (mkSliceReader (bytes_of "second"))] in
    let m1 := fst (WriteReader "f" "one.txt" 5 (Some 0) (New "R" [WithBoundary "X"])) in
    let m2 := fst (WriteReader "f" "two.txt" 6 (Some 1) m1) in
    let run := ReadAll (requests (fixed 7) k) {| st_heap := h; st_ms := m2 |}
                 (GetReader m2) in
    run_status run = Drained /\
    run_out run = bodyBuffer m2 ++ bytes_of "second" ++ closeBuffer m2.
Proof.
  apply (proj2 (proj2 (C7_last_registration_wins
           [OReader SliceReader SliceReader_Reader (mkSliceReader (bytes_of "first"));
            OReader SliceReader SliceReader_Reader (mkSliceReader (bytes_of "second"))]
           (New "R" [WithBoundary "X"])
           (fst (WriteReader "f" "one.txt" 5 (Some 0) (New "R" [WithBoundary "X"])))
           (fst (WriteReader "f" "two.txt" 6 (Some 1)
                   (fst (WriteReader "f" "one.txt" 5 (Some 0) (New "R" [WithBoundary "X"])))))
           (RegReader "f" "one.txt" 5 (Some 0)) (RegReader "f" "two.txt" 6 (Some 1))
           NoErr NoErr 0 1
           (OReader SliceReader SliceReader_Reader (mkSliceReader (bytes_of "second")))
           (bytes_of "second")
           eq_refl eq_refl eq_refl eq_refl (Nat.neq_0_succ 0) eq_refl
           (SliceReader_Yields _)))
         (fixed 7)).
  intros i. unfold fixed. lia.
Defined.

(** *** Closing the stream *)

Lemma WriteFile_opens (key filename : string) (w w' : World)
    (m m' : MultipartStreamer) :
  WriteFile key filename w m = (w', (m', NoErr)) ->
  exists nd,
    map_lookup filename (fs w) = Some nd /\
    heap w' = heap w ++ [OFile {| os.node := nd; os.pos := 0; os.closed := false |}] /\
    reader m' = Some (List.length (heap w)).
Proof.
  unfold WriteFile, os.Open.
  destruct (map_lookup filename (fs w)) as [nd|]; [|intros E; inversion E].
  unfold os.File_Stat_Size, heap_alloc. simpl.
  destruct (os.stat_ok nd); [|intros E; inversion E].
  intros E.
  pose proof (WriteReader_fields key (filepath.Base filename)
                (Z.of_nat (List.length (os.content nd))) (Some (List.length (heap w))) m)
    as (Hr & _).
  destruct (WriteReader _ _ _ _ m) as [m1 e1]. simpl in Hr.
  inversion E; subst. exists nd. simpl. auto.
Qed.

Lemma handle_open_alloc (h : Heap) (f : os.File) :
  os.closed f = false -> handle_open (h ++ [OFile f]) (List.length h) = true.
Proof.
  intros Hc. unfold handle_open.
  rewrite nth_error_app2 by lia. rewrite Nat.sub_diag. simpl. rewrite Hc. reflexivity.
Qed.

(** C4, the counterexample: a file registered by [WriteFile]; the consumer
    reads eight bytes and closes the stream, or drains it and closes it.
    The file handle is open afterwards. *)
Lemma C4_counterexample :
  let '(w, (m, err)) := WriteFile "file" "/tmp/upload.bin" upload_world (New "R" []) in
  let s := {| st_heap := heap w; st_ms := m |} in
  err = NoErr /\ reader m = Some 0 /\
  handle_open (st_heap (fst (stream_ops [DoRead 8; DoClose] (s, GetReader m)))) 0 = true /\
  handle_open (st_heap (fst (stream_ops
     [DoRead 4096; DoRead 4096; DoRead 4096; DoRead 4096; DoClose] (s, GetReader m)))) 0
  = true.
Proof. vm_compute. repeat split; reflexivity. Qed.

(** C4, as amended.  [Close] on the [ReadCloser] that [GetReader] returns
    does nothing and returns nil.  For every composer whose payload is a
    file that [WriteFile] opened, the handle is open when [WriteFile]
    returns and stays open through every sequence of reads and closes of
    the stream: nothing in the package releases it. *)
Theorem C4_Close_keeps_handle_open (key filename : string) (w w' : World)
    (m m' : MultipartStreamer) :
  WriteFile key filename w m = (w', (m', NoErr)) ->
  (forall s rc, nopCloser_Close s rc = ((s, rc), NoErr)) /\
  exists fh,
    reader m' = Some fh /\
    handle_open (heap w') fh = true /\
    forall ops,
      handle_open
        (st_heap (fst (stream_ops ops ({| st_heap := heap w'; st_ms := m' |},
                                       GetReader m')))) fh = true.
Proof.
  intros E. split; [reflexivity|].
  destruct (WriteFile_opens key filename w w' m m' E) as (nd & _ & Hh & Hr).
  exists (List.length (heap w)).
  assert (Ho : handle_open (heap w') (List.length (heap w)) = true).
  { rewrite Hh. apply handle_open_alloc. reflexivity. }
  repeat split; auto.
  intros ops. apply stream_ops_keep_open. exact Ho.
Qed.

Lemma C4_Close_keeps_handle_open_witness :
  exists fh,
    let r := WriteFile "file" "/tmp/upload.bin" upload_world (New "R" []) in
    reader (fst (snd r)) = Some fh /\
    handle_open (heap (fst r)) fh = true /\
    forall ops,
      handle_open
        (st_heap (fst (stream_ops ops
           ({| st_heap := heap (fst r); st_ms := fst (snd r) |},
            GetReader (fst (snd r)))))) fh = true.
Proof.
  apply (proj2 (C4_Close_keeps_handle_open "file" "/tmp/upload.bin" upload_world
                  (fst (WriteFile "file" "/tmp/upload.bin" upload_world (New "R" [])))
                  (New "R" [])
                  (fst (snd (WriteFile "file" "/tmp/upload.bin" upload_world (New "R" []))))
                  eq_refl)).
Defined.

(** * Further properties of the package *)

(** ** Header blocks *)

Lemma multipart_escapeQuotes_quoted (s : string) : multipart.escapeQuotes s = quoted s.
Proof. exact (escapeQuotes_quoted s). Qed.

Lemma canonical_content_type :
  textproto.CanonicalMIMEHeaderKey "Content-Type" = "Content-Type".
Proof. vm_compute. reflexivity. Qed.

Lemma canonical_content_length :
  textproto.CanonicalMIMEHeaderKey "Content-Length" = "Content-Length".
Proof. vm_compute. reflexivity. Qed.

Lemma header_lines_disposition (v : string) :
  multipart.header_lines [("Content-Disposition", [v])] =
  "Content-Disposition: " +++ v +++ crlf.
Proof. reflexivity. Qed.

Lemma header_lines_file (v t : string) :
  multipart.header_lines [("Content-Disposition", [v]); ("Content-Type", [t])] =
  "Content-Disposition: " +++ v +++ crlf +++ "Content-Type: " +++ t +++ crlf.
Proof.
  unfold multipart.header_lines.
  replace (sort.Strings (textproto.keys
             [("Content-Disposition", [v]); ("Content-Type", [t])]))
    with ["Content-Disposition"; "Content-Type"] by (vm_compute; reflexivity).
  cbn [flat_map map app textproto.lookup].
  replace (String.eqb "Content-Disposition" "Content-Disposition") with true
    by (vm_compute; reflexivity).
  replace (String.eqb "Content-Type" "Content-Disposition") with false
    by (vm_compute; reflexivity).
  replace (String.eqb "Content-Type" "Content-Type") with true
    by (vm_compute; reflexivity).
  cbn [map app]. rewrite !concat_cons. unfold multipart.header_line.
  cbn [String.concat]. rewrite !append_assoc, append_nil_r. reflexivity.
Qed.

Lemma Set_content_type (t : string) (v : string) :
  textproto.Set_ "Content-Type" t [("Content-Disposition", [v])] =
  [("Content-Disposition", [v]); ("Content-Type", [t])].
Proof.
  unfold textproto.Set_. rewrite canonical_content_type.
  cbn [textproto.assign].
  replace (String.eqb "Content-Type" "Content-Disposition") with false
    by (vm_compute; reflexivity).
  reflexivity.
Qed.

(** ** The first part and the later ones *)

Lemma delimiter_opening (w : multipart.Writer) :
  delimiter w = opening (multipart.boundary w) (first_part w).
Proof.
  unfold delimiter, opening, first_part.
  destruct (multipart.lastpart w); reflexivity.
Qed.

Lemma WriteField_wire (k v : string) (w : multipart.Writer) (out : bytes.Buffer) :
  writer_ok w ->
  multipart.WriteField k v w out =
  ((part_writer w, out ++ bytes_of (delimiter w +++ field_wire k v)), NoErr).
Proof.
  intros Hok. unfold multipart.WriteField, multipart.CreateFormField.
  rewrite Set_disposition_make, CreatePart_ok by exact Hok.
  cbv beta iota zeta. rewrite write_part_ok.
  rewrite header_lines_disposition, multipart_escapeQuotes_quoted.
  rewrite <- app_assoc, <- bytes_of_app. unfold field_wire.
  rewrite !append_assoc. reflexivity.
Qed.

Lemma WriteFields_wire_ok (fields : list (string * string)) :
  forall m, writer_ok (bodyWriter m) ->
  let r := WriteFields fields m in
  snd r = NoErr /\
  bodyBuffer (fst r) =
    bodyBuffer m ++
    bytes_of (fields_wire (multipart.boundary (bodyWriter m))
                          (first_part (bodyWriter m)) fields) /\
  (fields <> [] -> bodyWriter (fst r) = part_writer (bodyWriter m)) /\
  (fields = [] -> fst r = m).
Proof.
  induction fields as [|[k v] fields IH]; intros m Hok.
  - simpl. rewrite app_nil_r. repeat split; auto. congruence.
  - cbn [WriteFields]. rewrite (WriteField_wire k v _ _ Hok).
    cbn [with_writer].
    set (m1 := {| ContentType := ContentType m;
                  bodyBuffer := bodyBuffer m ++
                                bytes_of (delimiter (bodyWriter m) +++ field_wire k v);
                  bodyWriter := part_writer (bodyWriter m);
                  closeBuffer := closeBuffer m;
                  reader := reader m;
                  contentLength := contentLength m |}).
    destruct (IH m1 (part_writer_ok _)) as (He & Hb & Hw & Hn).
    cbv zeta in *. split; [exact He|]. split; [|split].
    + rewrite Hb. unfold m1. cbn [bodyBuffer bodyWriter].
      rewrite <- app_assoc, <- bytes_of_app, delimiter_opening.
      cbn [fields_wire]. rewrite !append_assoc. reflexivity.
    + intros _. destruct fields as [|f fields'].
      * rewrite (Hn eq_refl). reflexivity.
      * rewrite Hw by discriminate. reflexivity.
    + discriminate.
Qed.

Lemma delimiter_nonempty (w : multipart.Writer) (x : string) (out rest : Bytes) :
  out ++ bytes_of (delimiter w +++ x) ++ rest <> [].
Proof.
  destruct out as [|c out]; [|discriminate].
  unfold delimiter. destruct (multipart.lastpart w); discriminate.
Qed.

Lemma no_part_yet_false (m : MultipartStreamer) :
  bodyBuffer m <> [] -> no_part_yet m = false.
Proof. unfold no_part_yet. destruct (bodyBuffer m); congruence. Qed.

Lemma WriteReader_wire (key filename : string) (size : Z) (r : ReaderRef)
    (m : MultipartStreamer) :
  writer_ok (bodyWriter m) ->
  WriteReader key filename size r m =
  ({| ContentType := ContentType m;
      bodyBuffer := bodyBuffer m ++
        bytes_of (delimiter (bodyWriter m) +++ file_disposition key filename +++
                  "Content-Type: application/octet-stream" +++ crlf +++ crlf);
      bodyWriter := part_writer (bodyWriter m);
      closeBuffer := closeBuffer m;
      reader := r;
      contentLength := size |}, NoErr).
Proof.
  intros Hok. unfold WriteReader, multipart.CreateFormFile.
  cbn [set_reader set_contentLength bodyWriter bodyBuffer].
  rewrite Set_disposition_make, Set_content_type, CreatePart_ok by exact Hok.
  cbn [with_writer ContentType closeBuffer reader contentLength].
  rewrite header_lines_file, !multipart_escapeQuotes_quoted.
  unfold file_disposition. rewrite !append_assoc. reflexivity.
Qed.

(** on a composer the package produced, the writer has no part exactly
    when the header buffer is empty *)
Lemma Reachable_first_part (m : MultipartStreamer) :
  Reachable m -> first_part (bodyWriter m) = no_part_yet m.
Proof.
  induction 1 as [random bs | op m Hm IH | reg m m' err Hm IH Hreg].
  - destruct (New_fields random bs) as (_ & _ & Hb). cbv zeta in Hb.
    unfold no_part_yet. rewrite Hb.
    unfold first_part, New. cbn [bodyWriter]. rewrite options_lastpart. reflexivity.
  - pose proof (Reachable_writer_ok m Hm) as Hok.
    destruct op as [fields | fieldname data headers]; cbn [run_op].
    + destruct (WriteFields_wire_ok fields m Hok) as (_ & Hb & Hw & Hn).
      cbv zeta in *. destruct fields as [|[k v] fields].
      * rewrite (Hn eq_refl). exact IH.
      * rewrite Hw by discriminate. rewrite no_part_yet_false; [reflexivity|].
        rewrite Hb. cbn [fields_wire]. rewrite <- delimiter_opening.
        rewrite <- (app_nil_r (bytes_of _)). apply delimiter_nonempty.
    + destruct (WritePart_ok fieldname data headers m Hok) as (Hb & Hw & _).
      cbv zeta in *. rewrite Hw. rewrite no_part_yet_false; [reflexivity|].
      rewrite Hb. unfold part_header. apply delimiter_nonempty.
  - pose proof (Reachable_writer_ok m Hm) as Hok.
    assert (Hcase : exists x,
              bodyBuffer m' = bodyBuffer m ++ bytes_of (delimiter (bodyWriter m) +++ x) ++ []
              /\ bodyWriter m' = part_writer (bodyWriter m)).
    { destruct reg as [key filename size r | key filename size r | key filename r headers];
        cbn [register] in Hreg.
      - rewrite (WriteReader_wire key filename size r m Hok) in Hreg.
        inversion Hreg; subst. cbn [bodyBuffer bodyWriter].
        eexists. rewrite app_nil_r. split; reflexivity.
      - unfold WriteReaderWithSize in Hreg.
        destruct (WriteReaderWithHeaders_ok key filename r
                    [ ("Content-Type", AString "application/octet-stream");
                      ("Content-Length", AInt64 size) ] m size Hok eq_refl)
          as (m1 & E & Hb & Hw).
        rewrite E in Hreg. inversion Hreg; subst.
        eexists. rewrite app_nil_r. split; [exact Hb | exact Hw].
      - destruct (map_lookup "Content-Length" headers) as [[n| | | | |]|] eqn:Hn;
          try (unfold WriteReaderWithHeaders in Hreg; rewrite Hn in Hreg; discriminate).
        destruct (WriteReaderWithHeaders_ok key filename r headers m n Hok Hn)
          as (m1 & E & Hb & Hw).
        rewrite E in Hreg. inversion Hreg; subst.
        eexists. rewrite app_nil_r. split; [exact Hb | exact Hw]. }
    destruct Hcase as (x & Hb & Hw).
    rewrite Hw. rewrite no_part_yet_false; [reflexivity|].
    rewrite Hb. apply delimiter_nonempty.
Qed.

(** ** The boundary token *)

Lemma SetBoundary_fresh (b : string) (w : multipart.Writer) :
  multipart.lastpart w = None ->
  multipart.boundary (fst (multipart.SetBoundary b w)) =
  (if boundary_accepted b then b else multipart.boundary w).
Proof.
  intros Hl. unfold multipart.SetBoundary, boundary_accepted. rewrite Hl.
  destruct (_ || _); simpl; [reflexivity|].
  destruct (multipart.boundary_chars_ok b); reflexivity.
Qed.

Lemma SetBoundary_late (b : string) (w : multipart.Writer) (p : multipart.part) :
  multipart.lastpart w = Some p -> fst (multipart.SetBoundary b w) = w.
Proof. intros Hl. unfold multipart.SetBoundary. rewrite Hl. reflexivity. Qed.

Lemma options_boundary (bs : list string) :
  forall m, multipart.lastpart (bodyWriter m) = None ->
  multipart.boundary
    (bodyWriter (fold_left (fun m fopt => fopt m) (map WithBoundary bs) m)) =
  chosen_boundary (multipart.boundary (bodyWriter m)) bs.
Proof.
  unfold chosen_boundary.
  induction bs as [|b bs IH]; intros m Hl; [reflexivity|].
  cbn [map fold_left]. rewrite IH.
  - cbn [WithBoundary bodyWriter]. rewrite SetBoundary_fresh by exact Hl. reflexivity.
  - cbn [WithBoundary bodyWriter]. rewrite SetBoundary_lastpart. exact Hl.
Qed.

Lemma register_boundary (reg : Registration) (m m' : MultipartStreamer) (err : error) :
  register reg m = Returns m' err ->
  multipart.boundary (bodyWriter m') = multipart.boundary (bodyWriter m).
Proof.
  assert (HW : forall key filename r headers m1 e1,
            WriteReaderWithHeaders key filename r headers m = Returns m1 e1 ->
            multipart.boundary (bodyWriter m1) = multipart.boundary (bodyWriter m)).
  { intros key filename r headers m1 e1. unfold WriteReaderWithHeaders.
    destruct (map_lookup "Content-Length" headers) as [[n| | | | |]|]; try discriminate.
    match goal with
    | |- context [multipart.CreatePart ?h ?w ?o] =>
        pose proof (CreatePart_boundary h w o) as Hb;
        destruct (multipart.CreatePart h w o) as [[w1 out1] e]
    end.
    cbn in *. intros E; inversion E; subst. exact Hb. }
  destruct reg as [key filename size r | key filename size r | key filename r headers];
    cbn [register].
  - unfold WriteReader, multipart.CreateFormFile.
    match goal with
    | |- context [multipart.CreatePart ?h ?w ?o] =>
        pose proof (CreatePart_boundary h w o) as Hb;
        destruct (multipart.CreatePart h w o) as [[w1 out1] e]
    end.
    cbn in *. intros E; inversion E; subst. exact Hb.
  - apply HW.
  - apply HW.
Qed.

Lemma Reachable_tokens (m : MultipartStreamer) :
  Reachable m ->
  ContentType m = "multipart/form-data; boundary=" +++ Boundary m /\
  closeBuffer m = bytes_of (crlf +++ "--" +++ Boundary m +++ "--" +++ crlf).
Proof.
  unfold Boundary, multipart.Boundary.
  induction 1 as [random bs | op m Hm IH | reg m m' err Hm IH Hreg].
  - split; reflexivity.
  - assert (Hf : same_frame m (fst (run_op op m))).
    { destruct op; [apply WriteFields_frame | apply WritePart_frame]. }
    destruct Hf as (Hc & Hcl & _ & _ & Hb). rewrite Hc, Hcl, Hb. exact IH.
  - destruct (register_fields reg m m' err Hreg) as (_ & _ & Hcl & Hc).
    rewrite Hc, Hcl, (register_boundary reg m m' err Hreg). exact IH.
Qed.

Lemma header_lines_sized (v t l : string) :
  multipart.header_lines
    [("Content-Disposition", [v]); ("Content-Type", [t]); ("Content-Length", [l])] =
  "Content-Disposition: " +++ v +++ crlf +++
  "Content-Length: " +++ l +++ crlf +++
  "Content-Type: " +++ t +++ crlf.
Proof.
  unfold multipart.header_lines.
  replace (sort.Strings (textproto.keys
             [("Content-Disposition", [v]); ("Content-Type", [t]); ("Content-Length", [l])]))
    with ["Content-Disposition"; "Content-Length"; "Content-Type"]
    by (vm_compute; reflexivity).
  cbn [flat_map].
  replace (textproto.lookup "Content-Disposition" [("Content-Disposition", [v]); ("Content-Type", [t]); ("Content-Length", [l])])
    with [v] by reflexivity.
  replace (textproto.lookup "Content-Length" [("Content-Disposition", [v]); ("Content-Type", [t]); ("Content-Length", [l])])
    with [l] by reflexivity.
  replace (textproto.lookup "Content-Type" [("Content-Disposition", [v]); ("Content-Type", [t]); ("Content-Length", [l])])
    with [t] by reflexivity.
  cbn [map app]. rewrite !concat_cons. unfold multipart.header_line.
  cbn [String.concat]. rewrite !append_assoc, append_nil_r. reflexivity.
Qed.

Lemma header_lines_sized_swapped (v t l : string) :
  multipart.header_lines
    [("Content-Disposition", [v]); ("Content-Length", [l]); ("Content-Type", [t])] =
  "Content-Disposition: " +++ v +++ crlf +++
  "Content-Length: " +++ l +++ crlf +++
  "Content-Type: " +++ t +++ crlf.
Proof.
  unfold multipart.header_lines.
  replace (sort.Strings (textproto.keys
             [("Content-Disposition", [v]); ("Content-Length", [l]); ("Content-Type", [t])]))
    with ["Content-Disposition"; "Content-Length"; "Content-Type"]
    by (vm_compute; reflexivity).
  cbn [flat_map].
  replace (textproto.lookup "Content-Disposition" [("Content-Disposition", [v]); ("Content-Length", [l]); ("Content-Type", [t])])
    with [v] by reflexivity.
  replace (textproto.lookup "Content-Length" [("Content-Disposition", [v]); ("Content-Length", [l]); ("Content-Type", [t])])
    with [l] by reflexivity.
  replace (textproto.lookup "Content-Type" [("Content-Disposition", [v]); ("Content-Length", [l]); ("Content-Type", [t])])
    with [t] by reflexivity.
  cbn [map app]. rewrite !concat_cons. unfold multipart.header_line.
  cbn [String.concat]. rewrite !append_assoc, append_nil_r. reflexivity.
Qed.

Lemma Set_content_length_after_type (l v t : string) :
  textproto.Set_ "Content-Length" l
    [("Content-Disposition", [v]); ("Content-Type", [t])] =
  [("Content-Disposition", [v]); ("Content-Type", [t]); ("Content-Length", [l])].
Proof.
  unfold textproto.Set_. rewrite canonical_content_length. reflexivity.
Qed.

Lemma Set_content_length_first (l v : string) :
  textproto.Set_ "Content-Length" l [("Content-Disposition", [v])] =
  [("Content-Disposition", [v]); ("Content-Length", [l])].
Proof.
  unfold textproto.Set_. rewrite canonical_content_length. reflexivity.
Qed.

Lemma Set_content_type_after_length (t v l : string) :
  textproto.Set_ "Content-Type" t
    [("Content-Disposition", [v]); ("Content-Length", [l])] =
  [("Content-Disposition", [v]); ("Content-Length", [l]); ("Content-Type", [t])].
Proof.
  unfold textproto.Set_. rewrite canonical_content_type. reflexivity.
Qed.

Lemma sized_headers_wire (key filename : string) (size : Z) (r : ReaderRef)
    (m : MultipartStreamer) (headers : list (string * any)) :
  headers = [ ("Content-Type", AString "application/octet-stream");
              ("Content-Length", AInt64 size) ] \/
  headers = [ ("Content-Length", AInt64 size);
              ("Content-Type", AString "application/octet-stream") ] ->
  Reachable m ->
  WriteReaderWithHeaders key filename r headers m =
  Returns
    (with_file_part m
       (file_disposition key filename +++
        "Content-Length: " +++ fmt.decimal size +++ crlf +++
        "Content-Type: application/octet-stream" +++ crlf) r size) NoErr.
Proof.
  intros Hh Hm.
  pose proof (Reachable_writer_ok m Hm) as Hok.
  pose proof (Reachable_first_part m Hm) as Hfirst.
  assert (Hl : map_lookup "Content-Length" headers = Some (AInt64 size))
    by (destruct Hh as [-> | ->]; reflexivity).
  unfold WriteReaderWithHeaders. rewrite Hl, Set_disposition_make.
  assert (Hfold :
    multipart.header_lines
      (fold_left (fun h kv => textproto.Set_ (fst kv) (fmt.Sprint_v (snd kv)) h) headers
         [("Content-Disposition",
           ["form-data; name=" +++ dq +++ escapeQuotes key +++ dq +++
            "; filename=" +++ dq +++ escapeQuotes filename +++ dq])]) =
    file_disposition key filename +++
    "Content-Length: " +++ fmt.decimal size +++ crlf +++
    "Content-Type: application/octet-stream" +++ crlf).
  { destruct Hh as [-> | ->]; cbn [fold_left fst snd fmt.Sprint_v].
    - rewrite Set_content_type, Set_content_length_after_type, header_lines_sized.
      rewrite !escapeQuotes_quoted. unfold file_disposition.
      rewrite !append_assoc. reflexivity.
    - rewrite Set_content_length_first, Set_content_type_after_length,
        header_lines_sized_swapped.
      rewrite !escapeQuotes_quoted. unfold file_disposition.
      rewrite !append_assoc. reflexivity. }
  cbn [set_reader set_contentLength bodyWriter bodyBuffer].
  rewrite CreatePart_ok by exact Hok. rewrite Hfold.
  cbn [with_writer ContentType closeBuffer reader contentLength].
  unfold with_file_part, Boundary, multipart.Boundary.
  rewrite delimiter_opening, Hfirst, !append_assoc. reflexivity.
Qed.


(** ** Properties of construction *)

(** X1. [New] with any list of [WithBoundary] options: the boundary is the
    last option that [SetBoundary] accepts (1 to 70 accepted characters),
    or the generated default when none is, and [ContentType] and the
    trailer are built from it. *)
Theorem New_last_accepted_boundary_wins (random : string) (bs : list string) :
  let m := New random (map WithBoundary bs) in
  Boundary m = chosen_boundary random bs /\
  ContentType m = "multipart/form-data; boundary=" +++ chosen_boundary random bs /\
  closeBuffer m = bytes_of (crlf +++ "--" +++ chosen_boundary random bs +++ "--" +++ crlf).
Proof.
  cbv zeta.
  assert (H : Boundary (New random (map WithBoundary bs)) = chosen_boundary random bs).
  { unfold Boundary, multipart.Boundary, New. cbn [bodyWriter].
    rewrite options_boundary by reflexivity. reflexivity. }
  split; [exact H|]. rewrite <- H. split; reflexivity.
Qed.

(** X2. On every composer the package produces ([New], then any build
    calls and registrations), [ContentType] and the trailer buffer still
    carry the token [Boundary()] returns: no call after [New] changes any
    of the three. *)
Theorem tokens_stay_in_step (m : MultipartStreamer) :
  Reachable m ->
  ContentType m = "multipart/form-data; boundary=" +++ Boundary m /\
  closeBuffer m = bytes_of (crlf +++ "--" +++ Boundary m +++ "--" +++ crlf).
Proof. apply Reachable_tokens. Qed.

Lemma tokens_stay_in_step_witness :
  let m := fst (WriteReader "file" "a.bin" 3 (Some 0)
                  (fst (WriteFields [("k", "v")] (New "R" [WithBoundary "X"])))) in
  ContentType m = "multipart/form-data; boundary=" +++ Boundary m /\
  closeBuffer m = bytes_of (crlf +++ "--" +++ Boundary m +++ "--" +++ crlf).
Proof.
  apply (tokens_stay_in_step
           (fst (WriteReader "file" "a.bin" 3 (Some 0)
                   (fst (WriteFields [("k", "v")] (New "R" [WithBoundary "X"])))))).
  apply (Reach_register (RegReader "file" "a.bin" 3 (Some 0))
           (fst (WriteFields [("k", "v")] (New "R" [WithBoundary "X"]))) _ NoErr).
  - apply (Reach_build (OpWriteFields [("k", "v")]) (New "R" [WithBoundary "X"])).
    exact (Reach_New "R" ["X"]).
  - reflexivity.
Defined.

(** X3. A [WithBoundary] option applied to a composer after [New] returned.
    Before the first part it replaces the writer's boundary (when accepted)
    and nothing else, so [ContentType] and the trailer keep the token they
    were built with; once a part has been written it changes nothing at
    all. *)
Theorem option_after_New (random : string) (bs : list string) (b : string) :
  (let m := New random (map WithBoundary bs) in
   Boundary (WithBoundary b m) = (if boundary_accepted b then b else Boundary m) /\
   ContentType (WithBoundary b m) = ContentType m /\
   closeBuffer (WithBoundary b m) = closeBuffer m) /\
  (forall m, Reachable m -> no_part_yet m = false -> WithBoundary b m = m).
Proof.
  split.
  - cbv zeta. split; [|split; reflexivity].
    unfold Boundary, multipart.Boundary. cbn [WithBoundary bodyWriter].
    apply SetBoundary_fresh. unfold New. cbn [bodyWriter].
    rewrite options_lastpart. reflexivity.
  - intros m Hm Hno.
    pose proof (Reachable_first_part m Hm) as Hf. rewrite Hno in Hf.
    unfold first_part in Hf.
    destruct (multipart.lastpart (bodyWriter m)) as [p|] eqn:Hl; [|discriminate].
    unfold WithBoundary. rewrite (SetBoundary_late b _ p Hl).
    destruct m; reflexivity.
Qed.

Lemma option_after_New_witness :
  WithBoundary "Y" (fst (WriteFields [("k", "v")] (New "R" [WithBoundary "X"]))) =
  fst (WriteFields [("k", "v")] (New "R" [WithBoundary "X"])).
Proof.
  apply (proj2 (option_after_New "R" ["X"] "Y")).
  - apply (Reach_build (OpWriteFields [("k", "v")]) (New "R" [WithBoundary "X"])).
    exact (Reach_New "R" ["X"]).
  - reflexivity.
Defined.

(** ** Properties of the build calls *)



Lemma WriteFields_cons_ok (k v : string) (fields : list (string * string))
    (m : MultipartStreamer) :
  writer_ok (bodyWriter m) ->
  WriteFields ((k, v) :: fields) m =
  WriteFields fields (fst (WriteFields [(k, v)] m)) /\
  writer_ok (bodyWriter (fst (WriteFields [(k, v)] m))).
Proof.
  intros Hok. cbn [WriteFields].
  rewrite (WriteField_wire k v _ _ Hok). cbn [with_writer fst]. split; [reflexivity|].
  apply part_writer_ok.
Qed.

(** X5. One [WriteFields] call over several entries does what successive
    calls over the entries do: writing [l1 ++ l2] equals writing [l1] and
    then [l2]. *)
Theorem WriteFields_splits (l1 l2 : list (string * string)) (m : MultipartStreamer) :
  Reachable m ->
  WriteFields (l1 ++ l2) m = WriteFields l2 (fst (WriteFields l1 m)).
Proof.
  intros Hm. pose proof (Reachable_writer_ok m Hm) as Hok. clear Hm.
  revert m Hok. induction l1 as [|[k v] l1 IH]; intros m Hok; [reflexivity|].
  rewrite <- app_comm_cons.
  destruct (WriteFields_cons_ok k v (l1 ++ l2) m Hok) as [E1 Hok1].
  destruct (WriteFields_cons_ok k v l1 m Hok) as [E2 _].
  rewrite E1, E2. apply IH. exact Hok1.
Qed.

Lemma WriteFields_splits_witness :
  WriteFields ([("a", "1")] ++ [("b", "2")]) (New "R" [WithBoundary "X"]) =
  WriteFields [("b", "2")] (fst (WriteFields [("a", "1")] (New "R" [WithBoundary "X"]))).
Proof.
  apply (WriteFields_splits [("a", "1")] [("b", "2")] (New "R" [WithBoundary "X"])).
  exact (Reach_New "R" ["X"]).
Defined.

(** ** Properties of the registrations *)



(** X7. [WriteReaderWithSize] never panics.  On a composer the package
    produced it returns nil, stores the reader and the size, and appends
    the boundary line, the Content-Disposition line, the line
    Content-Length: <size in decimal>, the line
    Content-Type: application/octet-stream and an empty line; the bytes do
    not depend on the order in which Go ranges over its two-entry headers
    map. *)
Theorem WriteReaderWithSize_frames_sized_part (key filename : string) (size : Z)
    (r : ReaderRef) (m : MultipartStreamer) :
  Reachable m ->
  let expected :=
    Returns
      (with_file_part m
         (file_disposition key filename +++
          "Content-Length: " +++ fmt.decimal size +++ crlf +++
          "Content-Type: application/octet-stream" +++ crlf) r size) NoErr in
  WriteReaderWithSize key filename size r m = expected /\
  WriteReaderWithHeaders key filename r
    [ ("Content-Length", AInt64 size);
      ("Content-Type", AString "application/octet-stream") ] m = expected.
Proof.
  intros Hm. cbv zeta. split.
  - unfold WriteReaderWithSize. apply sized_headers_wire; auto.
  - apply sized_headers_wire; auto.
Qed.

Lemma WriteReaderWithSize_frames_sized_part_witness :
  WriteReaderWithSize "file" "a.txt" 1234 (Some 0) (New "R" [WithBoundary "X"]) =
  Returns
    (with_file_part (New "R" [WithBoundary "X"])
       (file_disposition "file" "a.txt" +++
        "Content-Length: " +++ fmt.decimal 1234 +++ crlf +++
        "Content-Type: application/octet-stream" +++ crlf) (Some 0) 1234) NoErr.
Proof.
  apply (proj1 (WriteReaderWithSize_frames_sized_part "file" "a.txt" 1234 (Some 0)
                  (New "R" [WithBoundary "X"]) (Reach_New "R" ["X"]))).
Defined.

(** ** WritePart *)

Lemma WritePart_header_plain (fieldname : string) :
  multipart.header_lines (WritePart_header fieldname []) =
  "Content-Disposition: form-data; name=" +++ dq +++ quoted fieldname +++ dq +++ crlf.
Proof.
  unfold WritePart_header. cbn [fold_left].
  rewrite Set_disposition_make, header_lines_disposition, escapeQuotes_quoted.
  rewrite !append_assoc. reflexivity.
Qed.

Lemma WritePart_header_typed (fieldname t : string) :
  multipart.header_lines (WritePart_header fieldname [("Content-Type", t)]) =
  "Content-Disposition: form-data; name=" +++ dq +++ quoted fieldname +++ dq +++ crlf +++
  "Content-Type: " +++ t +++ crlf.
Proof.
  unfold WritePart_header. cbn [fold_left fst snd].
  rewrite Set_disposition_make, Set_content_type, header_lines_file, escapeQuotes_quoted.
  rewrite !append_assoc. reflexivity.
Qed.

(** X8. [WritePart] on a composer the package produced: with no extra
    header it appends the boundary line, the line
    Content-Disposition: form-data; name="..." and an empty line, then
    every byte the data reader delivered; with a Content-Type header the
    line Content-Type: <value> follows the disposition line.  It returns
    the error that ended the data (nil after [io.EOF]): the bytes
    delivered before a failure stay in the header buffer. *)
Theorem WritePart_copies_data (fieldname : string) (data : CopySource)
    (m : MultipartStreamer) :
  Reachable m ->
  (let r := WritePart fieldname data [] m in
   snd r = src_err data /\
   bodyBuffer (fst r) =
     bodyBuffer m ++
     bytes_of (opening (Boundary m) (no_part_yet m) +++
               "Content-Disposition: form-data; name=" +++ dq +++ quoted fieldname +++ dq
               +++ crlf +++ crlf) ++
     src_bytes data) /\
  (forall t,
   let r := WritePart fieldname data [("Content-Type", t)] m in
   snd r = src_err data /\
   bodyBuffer (fst r) =
     bodyBuffer m ++
     bytes_of (opening (Boundary m) (no_part_yet m) +++
               "Content-Disposition: form-data; name=" +++ dq +++ quoted fieldname +++ dq
               +++ crlf +++ "Content-Type: " +++ t +++ crlf +++ crlf) ++
     src_bytes data).
Proof.
  intros Hm.
  pose proof (Reachable_writer_ok m Hm) as Hok.
  pose proof (Reachable_first_part m Hm) as Hf.
  split; [|intros t]; cbv zeta.
  - destruct (WritePart_ok fieldname data [] m Hok) as (Hb & _ & He).
    cbv zeta in *. split; [exact He|]. rewrite Hb. unfold part_header.
    rewrite WritePart_header_plain, delimiter_opening, Hf.
    unfold Boundary, multipart.Boundary. rewrite !append_assoc. reflexivity.
  - destruct (WritePart_ok fieldname data [("Content-Type", t)] m Hok) as (Hb & _ & He).
    cbv zeta in *. split; [exact He|]. rewrite Hb. unfold part_header.
    rewrite WritePart_header_typed, delimiter_opening, Hf.
    unfold Boundary, multipart.Boundary. rewrite !append_assoc. reflexivity.
Qed.

Lemma WritePart_copies_data_witness :
  let data := {| src_bytes := bytes_of "abc"; src_err := Err "unexpected EOF" |} in
  let m := New "R" [WithBoundary "X"] in
  let r := WritePart "p" data [] m in
  snd r = src_err data /\
  bodyBuffer (fst r) =
    bodyBuffer m ++
    bytes_of (opening (Boundary m) (no_part_yet m) +++
              "Content-Disposition: form-data; name=" +++ dq +++ quoted "p" +++ dq
              +++ crlf +++ crlf) ++
    src_bytes data.
Proof.
  apply (proj1 (WritePart_copies_data "p"
                  {| src_bytes := bytes_of "abc"; src_err := Err "unexpected EOF" |}
                  (New "R" [WithBoundary "X"]) (Reach_New "R" ["X"]))).
Defined.

(** ** The header buffer only grows *)

Lemma CreatePart_appends (h : textproto.MIMEHeader) (w : multipart.Writer)
    (out : bytes.Buffer) :
  exists added, snd (fst (multipart.CreatePart h w out)) = out ++ added.
Proof.
  unfold multipart.CreatePart.
  destruct (multipart.lastpart w) as [p|].
  - destruct (multipart.we p); simpl; try (exists []; rewrite app_nil_r; reflexivity).
    eexists. reflexivity.
  - eexists. reflexivity.
Qed.

Lemma write_part_appends (d : Bytes) (p : multipart.part) (w : multipart.Writer)
    (out : bytes.Buffer) :
  exists added, snd (fst (multipart.write_part d p w out)) = out ++ added.
Proof.
  unfold multipart.write_part, multipart.part_Write.
  destruct (multipart.closed p); simpl.
  - exists []. rewrite app_nil_r. reflexivity.
  - eexists. reflexivity.
Qed.

Lemma with_writer_body (m : MultipartStreamer)
    (r : (multipart.Writer * bytes.Buffer) * error) :
  bodyBuffer (fst (with_writer m r)) = snd (fst r).
Proof. destruct r as [[w out] err]. reflexivity. Qed.

Lemma WriteField_appends (k v : string) (w : multipart.Writer) (out : bytes.Buffer) :
  exists added, snd (fst (multipart.WriteField k v w out)) = out ++ added.
Proof.
  unfold multipart.WriteField, multipart.CreateFormField.
  match goal with
  | |- context [multipart.CreatePart ?h ?w ?o] =>
      destruct (CreatePart_appends h w o) as [a1 H1];
      destruct (multipart.CreatePart h w o) as [[w1 out1] e]
  end.
  simpl in H1. subst out1.
  destruct e; [|exists a1; reflexivity|exists a1; reflexivity].
  destruct (write_part_appends (bytes_of v) multipart.new_part w1 (out ++ a1)) as [a2 H2].
  exists (a1 ++ a2). cbv beta iota. rewrite H2, app_assoc. reflexivity.
Qed.

Lemma WriteFields_appends (fields : list (string * string)) :
  forall m, exists added, bodyBuffer (fst (WriteFields fields m)) = bodyBuffer m ++ added.
Proof.
  induction fields as [|[k v] fields IH]; intros m.
  - exists []. simpl. rewrite app_nil_r. reflexivity.
  - cbn [WriteFields].
    destruct (WriteField_appends k v (bodyWriter m) (bodyBuffer m)) as [a1 H1].
    pose proof (with_writer_body m
                  (multipart.WriteField k v (bodyWriter m) (bodyBuffer m))) as Hb.
    destruct (with_writer m _) as [m1 e]. simpl in Hb. rewrite H1 in Hb.
    destruct e; [|exists a1; exact Hb|exists a1; exact Hb].
    destruct (IH m1) as [a2 H2]. exists (a1 ++ a2).
    rewrite H2, Hb, app_assoc. reflexivity.
Qed.

Lemma WritePart_appends (fieldname : string) (data : CopySource)
    (headers : list (string * string)) (m : MultipartStreamer) :
  exists added,
    bodyBuffer (fst (WritePart fieldname data headers m)) = bodyBuffer m ++ added.
Proof.
  unfold WritePart.
  match goal with
  | |- context [multipart.CreatePart ?h ?w ?o] =>
      destruct (CreatePart_appends h w o) as [a1 H1];
      pose proof (with_writer_body m (multipart.CreatePart h w o)) as Hb;
      destruct (with_writer m (multipart.CreatePart h w o)) as [m1 e]
  end.
  rewrite H1 in Hb. cbn [fst] in Hb.
  destruct e; [|exists a1; exact Hb|exists a1; exact Hb].
  rewrite with_writer_body. unfold io_Copy_to_part.
  destruct (src_bytes data) as [|c d].
  - exists a1. exact Hb.
  - destruct (write_part_appends (c :: d) multipart.new_part (bodyWriter m1)
                (bodyBuffer m1)) as [a2 H2].
    destruct (multipart.write_part _ _ _ _) as [rr werr]. cbn [fst snd] in H2.
    exists (a1 ++ a2).
    destruct werr; cbn [fst snd]; rewrite H2, Hb, app_assoc; reflexivity.
Qed.

(** X9. Every build call and every registration, on any composer and
    whatever it returns, leaves the bytes already in the header buffer in
    place and only appends to them; a registration that panics appends
    nothing. *)
Theorem header_buffer_append_only (m : MultipartStreamer) :
  (forall op, exists added,
     bodyBuffer (fst (run_op op m)) = bodyBuffer m ++ added) /\
  (forall reg,
     match register reg m with
     | Returns m' _ => exists added, bodyBuffer m' = bodyBuffer m ++ added
     | Panics m' _ => bodyBuffer m' = bodyBuffer m
     end).
Proof.
  split.
  - intros [fields | fieldname data headers]; cbn [run_op].
    + apply WriteFields_appends.
    + apply WritePart_appends.
  - assert (HW : forall key filename r headers,
              match WriteReaderWithHeaders key filename r headers m with
              | Returns m' _ => exists added, bodyBuffer m' = bodyBuffer m ++ added
              | Panics m' _ => bodyBuffer m' = bodyBuffer m
              end).
    { intros key filename r headers. unfold WriteReaderWithHeaders.
      destruct (map_lookup "Content-Length" headers) as [[n| | | | |]|];
        try reflexivity.
      match goal with
      | |- context [multipart.CreatePart ?h ?w ?o] =>
          destruct (CreatePart_appends h w o) as [a1 H1];
          destruct (multipart.CreatePart h w o) as [[w1 out1] e]
      end.
      simpl in *. exists a1. exact H1. }
    intros [key filename size r | key filename size r | key filename r headers];
      cbn [register].
    + unfold WriteReader, multipart.CreateFormFile.
      match goal with
      | |- context [multipart.CreatePart ?h ?w ?o] =>
          destruct (CreatePart_appends h w o) as [a1 H1];
          destruct (multipart.CreatePart h w o) as [[w1 out1] e]
      end.
      simpl in *. exists a1. exact H1.
    + apply HW.
    + apply HW.
Qed.

(** ** Files as payload *)




Lemma WriteFile_cases (key filename : string) (w : World) (m : MultipartStreamer) :
  match map_lookup filename (fs w) with
  | None =>
      WriteFile key filename w m = (w, (m, Err "no such file or directory"))
  | Some nd =>
      let fh := List.length (heap w) in
      let file := {| os.node := nd; os.pos := 0; os.closed := false |} in
      let w' := {| fs := fs w; heap := heap w ++ [OFile file] |} in
      handle_open (heap w') fh = true /\
      WriteFile key filename w m =
        (w', if os.stat_ok nd
             then WriteReader key (filepath.Base filename)
                    (Z.of_nat (List.length (os.content nd))) (Some fh) m
             else (m, Err "stat failed"))
  end.
Proof.
  unfold WriteFile, os.Open.
  destruct (map_lookup filename (fs w)) as [nd|]; [|reflexivity].
  cbv zeta. split; [apply handle_open_alloc; reflexivity|].
  unfold heap_alloc, os.File_Stat_Size. cbn [os.closed os.node].
  destruct (os.stat_ok nd); reflexivity.
Qed.






(** ** The declared length *)

(** X12. The declared payload length is never checked against the source.
    When the source yields [data], the drained stream holds all of [data],
    neither cut nor padded to the declared length, and [Len] differs from
    the number of bytes received by exactly declared length minus actual
    length. *)
Theorem declared_length_is_not_checked (h : Heap) (m : MultipartStreamer) (a : nat)
    (o : Obj) (data : Bytes) (size : nat -> nat) :
  reader m = Some a -> nth_error h a = Some o -> Yields o data ->
  (forall i, 0 < size i) ->
  exists k,
    let run := ReadAll (requests size k) {| st_heap := h; st_ms := m |} (GetReader m) in
    run_status run = Drained /\
    run_out run = bodyBuffer m ++ data ++ closeBuffer m /\
    Len m = wrap64 (Z.of_nat (List.length (run_out run))
                    + (contentLength m - Z.of_nat (List.length data))).
Proof.
  intros Hr Ha Hy Hsize.
  destruct (drains_with_payload h m a o data size Hr Ha Hy Hsize) as (k & Hs & Ho).
  exists k. cbv zeta in *. split; [exact Hs|]. split; [exact Ho|].
  rewrite Len_sum, Ho, !length_app. f_equal. lia.
Qed.

Lemma declared_length_is_not_checked_witness :
  exists k,
    let m := fst (WriteReader "file" "a.bin" 3 (Some 0) (New "R" [WithBoundary "X"])) in
    let run := ReadAll (requests (fixed 4) k) {| st_heap := hello_heap; st_ms := m |}
                 (GetReader m) in
    run_status run = Drained /\
    run_out run = bodyBuffer m ++ bytes_of "hello" ++ closeBuffer m /\
    Len m = wrap64 (Z.of_nat (List.length (run_out run))
                    + (contentLength m - Z.of_nat (List.length (bytes_of "hello")))).
Proof.
  apply (declared_length_is_not_checked hello_heap
           (fst (WriteReader "file" "a.bin" 3 (Some 0) (New "R" [WithBoundary "X"]))) 0
           (OReader SliceReader SliceReader_Reader (mkSliceReader (bytes_of "hello")))
           (bytes_of "hello") (fixed 4) eq_refl eq_refl (SliceReader_Yields _)).
  intros i. unfold fixed. lia.
Defined.

(** ** After the stream is drained *)

Lemma bytes_Read_EOF (n : nat) (b b' : bytes.Buffer) (p : Bytes) :
  bytes.Read n b = ((p, EOF), b') -> p = [] /\ b = [] /\ b' = [].
Proof.
  destruct b as [|c b]; simpl.
  - destruct (Nat.eqb n 0); intros E; inversion E; auto.
  - intros E; inversion E.
Qed.

Lemma bytes_Read_empty (n : nat) :
  fst (fst (bytes.Read n [])) = [] /\ snd (bytes.Read n []) = [].
Proof. simpl. destruct (Nat.eqb n 0); auto. Qed.

Lemma dropped_empty_close (n : nat) (s : Store) :
  bodyBuffer (st_ms s) = [] ->
  let r := multiReader_Read n s [SrcClose] in
  dropped_empty (rr_store r) (rr_readers r) /\
  (forall p, rr_ret r = Some (p, EOF) -> rr_readers r = []).
Proof.
  intros Hb. cbn [multiReader_Read Src_Read].
  destruct (bytes.Read n (closeBuffer (st_ms s))) as [[p e] b'] eqn:E.
  destruct e.
  - cbn. split; [exact Hb | discriminate].
  - destruct (bytes_Read_EOF _ _ _ _ E) as (-> & _ & ->).
    cbn. split; [auto | reflexivity].
  - cbn. split; [exact Hb | discriminate].
Qed.

Lemma dropped_empty_payload (n : nat) (s : Store) (r0 : ReaderRef) :
  bodyBuffer (st_ms s) = [] ->
  let r := multiReader_Read n s [SrcPayload r0; SrcClose] in
  dropped_empty (rr_store r) (rr_readers r) /\
  (forall p, rr_ret r = Some (p, EOF) -> rr_readers r = []).
Proof.
  intros Hb. cbn [multiReader_Read Src_Read].
  destruct r0 as [a|]; [|cbn; split; [exact Hb | discriminate]].
  destruct (nth_error (st_heap s) a) as [o|]; [|cbn; split; [exact Hb | discriminate]].
  destruct (Obj_Read n o) as [[p e] o'].
  destruct e; try (cbn; split; [exact Hb | discriminate]).
  destruct p as [|c p]; [|cbn; split; [exact Hb | discriminate]].
  apply (dropped_empty_close n
           {| st_heap := heap_update a o' (st_heap s); st_ms := st_ms s |}).
  exact Hb.
Qed.

Lemma dropped_empty_body (n : nat) (s : Store) (r1 : ReaderRef) :
  let r := multiReader_Read n s [SrcBody; SrcPayload r1; SrcClose] in
  dropped_empty (rr_store r) (rr_readers r) /\
  (forall p, rr_ret r = Some (p, EOF) -> rr_readers r = []).
Proof.
  cbn [multiReader_Read Src_Read].
  destruct (bytes.Read n (bodyBuffer (st_ms s))) as [[p e] b'] eqn:E.
  destruct e; try (cbn; split; [exact I | discriminate]).
  destruct (bytes_Read_EOF _ _ _ _ E) as (-> & _ & ->).
  apply (dropped_empty_payload n
           {| st_heap := st_heap s; st_ms := set_bodyBuffer [] (st_ms s) |} r1).
  reflexivity.
Qed.

Lemma dropped_empty_Read (n : nat) (s : Store) (rs : MultiReader) :
  dropped_empty s rs ->
  let r := multiReader_Read n s rs in
  dropped_empty (rr_store r) (rr_readers r) /\
  (forall p, rr_ret r = Some (p, EOF) -> rr_readers r = []).
Proof.
  intros H.
  destruct rs as [|[|r0|] [|[|r1|] [|[| |] [|? ?]]]]; simpl in H; try contradiction.
  all: first [ apply dropped_empty_body
             | apply dropped_empty_payload; exact H
             | apply dropped_empty_close; exact H
             | cbn; split; [exact H | reflexivity] ].
Qed.

Lemma drained_buffers_empty (reqs : list nat) :
  forall (s : Store) (rs : MultiReader),
  dropped_empty s rs ->
  run_status (ReadAll reqs s (NopCloser rs)) = Drained ->
  bodyBuffer (st_ms (run_store (ReadAll reqs s (NopCloser rs)))) = [] /\
  closeBuffer (st_ms (run_store (ReadAll reqs s (NopCloser rs)))) = [].
Proof.
  induction reqs as [|n reqs IH]; intros s rs Hinv.
  - simpl. discriminate.
  - rewrite ReadAll_cons. cbv zeta.
    destruct (dropped_empty_Read n s rs Hinv) as [Hinv' Heof]. cbv zeta in *.
    destruct (rr_ret (multiReader_Read n s rs)) as [[p e]|]; [|simpl; discriminate].
    destruct e; cbn [run_status run_store].
    + apply IH. exact Hinv'.
    + intros _. rewrite (Heof p eq_refl) in Hinv'. exact Hinv'.
    + discriminate.
Qed.

Lemma empty_buffers_stay_silent_Read (n : nat) (rs : MultiReader) :
  forall s : Store,
  bodyBuffer (st_ms s) = [] -> closeBuffer (st_ms s) = [] ->
  let r := multiReader_Read n s rs in
  emitted is_body (rr_events r) = [] /\ emitted is_close (rr_events r) = [] /\
  bodyBuffer (st_ms (rr_store r)) = [] /\ closeBuffer (st_ms (rr_store r)) = [].
Proof.
  induction rs as [|src rs IH]; intros s Hb Hc.
  - cbn. auto.
  - cbn [multiReader_Read].
    assert (Hsrc : forall p e s', Src_Read n s src = Some ((p, e), s') ->
              emitted is_body [EvRead src p e] = [] /\
              emitted is_close [EvRead src p e] = [] /\
              bodyBuffer (st_ms s') = [] /\ closeBuffer (st_ms s') = []).
    { destruct src as [|[a|]|]; cbn [Src_Read]; intros p e s'.
      - rewrite Hb. destruct (bytes_Read_empty n) as [H1 H2].
        destruct (bytes.Read n []) as [[p0 e0] b0]. cbn in H1, H2. subst.
        intros E; inversion E; subst. cbn. auto.
      - destruct (nth_error (st_heap s) a); [|discriminate].
        destruct (Obj_Read n o) as [[p0 e0] o'].
        intros E; inversion E; subst. cbn. auto.
      - discriminate.
      - rewrite Hc. destruct (bytes_Read_empty n) as [H1 H2].
        destruct (bytes.Read n []) as [[p0 e0] b0]. cbn in H1, H2. subst.
        intros E; inversion E; subst. cbn. auto. }
    destruct (Src_Read n s src) as [[[p e] s']|]; [|cbn; auto].
    destruct (Hsrc p e s' eq_refl) as (H1 & H2 & H3 & H4).
    destruct e; try (cbn [rr_events rr_store]; auto).
    destruct p as [|c p]; [|cbn [rr_events rr_store]; auto].
    destruct (IH s' H3 H4) as (I1 & I2 & I3 & I4). cbv zeta in *.
    cbn [rr_events rr_store].
    change (EvRead src [] EOF :: rr_events (multiReader_Read n s' rs))
      with ([EvRead src [] EOF] ++ rr_events (multiReader_Read n s' rs)).
    rewrite !emitted_app, H1, H2, I1, I2. auto.
Qed.

Lemma empty_buffers_stay_silent (reqs : list nat) :
  forall (s : Store) (rs : MultiReader),
  bodyBuffer (st_ms s) = [] -> closeBuffer (st_ms s) = [] ->
  emitted is_body (run_trace (ReadAll reqs s (NopCloser rs))) = [] /\
  emitted is_close (run_trace (ReadAll reqs s (NopCloser rs))) = [].
Proof.
  induction reqs as [|n reqs IH]; intros s rs Hb Hc.
  - cbn. auto.
  - rewrite ReadAll_cons. cbv zeta.
    destruct (empty_buffers_stay_silent_Read n rs s Hb Hc) as (H1 & H2 & H3 & H4).
    cbv zeta in *.
    destruct (rr_ret (multiReader_Read n s rs)) as [[p e]|]; [|cbn; auto].
    destruct e; cbn [run_trace]; auto.
    destruct (IH (rr_store (multiReader_Read n s rs))
                 (rr_readers (multiReader_Read n s rs)) H3 H4) as [I1 I2].
    rewrite !emitted_app, H1, H2, I1, I2. auto.
Qed.

(** X13. The composer is single-pass.  Once a run of the stream has
    reached [io.EOF], the composer's header and trailer buffers are empty
    and [Len] returns the payload length alone; a stream obtained from
    [GetReader] afterwards never hands out a header or trailer byte. *)
Theorem drained_composer_is_spent (h : Heap) (m : MultipartStreamer) (reqs : list nat) :
  let run := ReadAll reqs {| st_heap := h; st_ms := m |} (GetReader m) in
  run_status run = Drained ->
  let m' := st_ms (run_store run) in
  bodyBuffer m' = [] /\ closeBuffer m' = [] /\
  Len m' = wrap64 (contentLength m) /\
  forall h' reqs',
    let again := ReadAll reqs' {| st_heap := h'; st_ms := m' |} (GetReader m') in
    emitted is_body (run_trace again) = [] /\ emitted is_close (run_trace again) = [].
Proof.
  cbv zeta. intros Hd.
  destruct (drained_buffers_empty reqs {| st_heap := h; st_ms := m |} (MultiReader_of m) I Hd)
    as [Hb Hc].
  destruct (ReadAll_consumed reqs {| st_heap := h; st_ms := m |} (MultiReader_of m))
    as (_ & _ & Hl).
  unfold GetReader in *. cbn [st_ms] in Hl.
  split; [exact Hb|]. split; [exact Hc|]. split.
  - rewrite Len_sum, Hb, Hc, Hl. cbn [List.length]. f_equal. lia.
  - intros h' reqs'. apply empty_buffers_stay_silent; assumption.
Qed.

Lemma drained_composer_is_spent_witness :
  let m := scenario "R" (Some 0) in
  let run := ReadAll (requests (fixed 4096) 4) {| st_heap := hello_heap; st_ms := m |}
               (GetReader m) in
  let m' := st_ms (run_store run) in
  bodyBuffer m' = [] /\ closeBuffer m' = [] /\
  Len m' = wrap64 (contentLength m) /\
  forall h' reqs',
    let again := ReadAll reqs' {| st_heap := h'; st_ms := m' |} (GetReader m') in
    emitted is_body (run_trace again) = [] /\ emitted is_close (run_trace again) = [].
Proof.
  apply (drained_composer_is_spent hello_heap (scenario "R" (Some 0))
           (requests (fixed 4096) 4)).
  vm_compute. reflexivity.
Defined.

(** ** Quoting can be undone *)

Lemma scan_quoted_quoted (s rest : string) :
  scan_quoted (quoted s +++ dq +++ rest) = Some (s, rest).
Proof.
  induction s as [|c s IH].
  - reflexivity.
  - cbn [quoted]. unfold quoted_byte.
    destruct (Ascii.eqb c BACKSLASH) eqn:Eb.
    + apply Ascii.eqb_eq in Eb. subst c.
      change (("\\" +++ quoted s) +++ dq +++ rest)
        with (String BACKSLASH (String BACKSLASH (quoted s +++ dq +++ rest))).
      cbn [scan_quoted].
      replace (Ascii.eqb BACKSLASH DQUOTE) with false by reflexivity.
      replace (Ascii.eqb BACKSLASH BACKSLASH) with true by reflexivity.
      rewrite IH. reflexivity.
    + destruct (Ascii.eqb c DQUOTE) eqn:Ed.
      * apply Ascii.eqb_eq in Ed. subst c.
        change ((("\" +++ dq) +++ quoted s) +++ dq +++ rest)
          with (String BACKSLASH (String DQUOTE (quoted s +++ dq +++ rest))).
        cbn [scan_quoted].
        replace (Ascii.eqb BACKSLASH DQUOTE) with false by reflexivity.
        replace (Ascii.eqb BACKSLASH BACKSLASH) with true by reflexivity.
        rewrite IH. reflexivity.
      * change ((String c EmptyString +++ quoted s) +++ dq +++ rest)
          with (String c (quoted s +++ dq +++ rest)).
        cbn [scan_quoted]. rewrite Ed, Eb, IH. reflexivity.
Qed.

(** X14. What [escapeQuotes] writes between double quotes can be read
    back: a scanner that takes the byte after a backslash literally and
    stops at the first bare double quote returns the original string and
    exactly what followed the closing quote.  Hence no name can end the
    quoted string early, and distinct names are written differently. *)
Theorem escapeQuotes_reads_back :
  (forall s rest, scan_quoted (escapeQuotes s +++ dq +++ rest) = Some (s, rest)) /\
  (forall s1 s2, escapeQuotes s1 = escapeQuotes s2 -> s1 = s2) /\
  (forall s, String.length s <= String.length (escapeQuotes s)).
Proof.
  split; [|split].
  - intros s rest. rewrite escapeQuotes_quoted. apply scan_quoted_quoted.
  - intros s1 s2 E.
    pose proof (scan_quoted_quoted s1 EmptyString) as H1.
    pose proof (scan_quoted_quoted s2 EmptyString) as H2.
    rewrite <- !escapeQuotes_quoted, E in *. congruence.
  - intros s. rewrite escapeQuotes_quoted.
    induction s as [|c s IH]; [reflexivity|].
    cbn [quoted]. unfold quoted_byte.
    destruct (Ascii.eqb c BACKSLASH); [simpl; lia|].
    destruct (Ascii.eqb c DQUOTE); simpl; lia.
Qed.

(** ** SetupRequest *)

Lemma Header_Add_lookup (key value : string) (h : textproto.MIMEHeader) (k : string) :
  textproto.lookup k (http.Header_Add key value h) =
  if String.eqb (textproto.CanonicalMIMEHeaderKey key) k
  then textproto.lookup k h ++ [value]
  else textproto.lookup k h.
Proof.
  unfold http.Header_Add.
  destruct (String.eqb (textproto.CanonicalMIMEHeaderKey key) k) eqn:E.
  - apply String.eqb_eq in E. subst k. apply lookup_assign_same.
  - apply lookup_assign_other. exact E.
Qed.

(** X15. [SetupRequest] on a request with a header map: the body becomes
    the composed stream, the content length [Len()], and [ContentType] is
    appended to the Content-Type values; values already there are kept in
    front of it and no other header is touched.  On a request whose header
    map is nil the call panics in [Header.Add], after the body was set and
    before the content length is.  When the payload source yields exactly
    the declared length and the total is below 2^63, the body drains to
    exactly the content length set. *)
Theorem SetupRequest_sets_body_type_and_length (m : MultipartStreamer)
    (req : http.Request) :
  match http.Header req with
  | None =>
      SetupRequest m req =
      SetupPanics {| http.Body := Some (GetReader m);
                     http.Header := None;
                     http.ContentLength := http.ContentLength req |}
                  "assignment to entry in nil map"
  | Some h =>
      exists hdr,
        SetupRequest m req =
        SetupReturns {| http.Body := Some (GetReader m);
                        http.Header := Some hdr;
                        http.ContentLength := Len m |} /\
        textproto.lookup "Content-Type" hdr =
          textproto.lookup "Content-Type" h ++ [ContentType m] /\
        (forall k, k <> "Content-Type" ->
           textproto.lookup k hdr = textproto.lookup k h) /\
        (forall hp a o data size,
           reader m = Some a -> nth_error hp a = Some o -> Yields o data ->
           Z.of_nat (List.length data) = contentLength m ->
           (Z.of_nat (List.length (bodyBuffer m ++ data ++ closeBuffer m)) < 2 ^ 63)%Z ->
           (forall i, 0 < size i) ->
           exists k,
             let run := ReadAll (requests size k) {| st_heap := hp; st_ms := m |}
                          (GetReader m) in
             run_status run = Drained /\
             Z.of_nat (List.length (run_out run)) = Len m)
  end.
Proof.
  unfold SetupRequest. cbn [http.Body http.ContentLength http.Header].
  destruct (http.Header req) as [h|]; [|reflexivity].
  eexists. split; [reflexivity|]. split; [|split].
  - rewrite Header_Add_lookup, canonical_content_type, String.eqb_refl. reflexivity.
  - intros k Hk. rewrite Header_Add_lookup, canonical_content_type.
    destruct (String.eqb_spec "Content-Type" k); [congruence | reflexivity].
  - intros hp a o data size. apply Len_equals_drained.
Qed.

Lemma SetupRequest_sets_body_type_and_length_witness :
  exists k,
    let m := scenario "R" (Some 0) in
    let run := ReadAll (requests (fixed 9) k) {| st_heap := hello_heap; st_ms := m |}
                 (GetReader m) in
    run_status run = Drained /\
    Z.of_nat (List.length (run_out run)) = Len m.
Proof.
  destruct (SetupRequest_sets_body_type_and_length (scenario "R" (Some 0))
              {| http.Body := None;
                 http.Header := Some [("Content-Type", ["text/plain"])];
                 http.ContentLength := 0 |}) as (hdr & _ & _ & _ & H).
  apply (H hello_heap 0
           (OReader SliceReader SliceReader_Reader (mkSliceReader (bytes_of "hello")))
           (bytes_of "hello") (fixed 9)).
  - reflexivity.
  - reflexivity.
  - apply SliceReader_Yields.
  - reflexivity.
  - vm_compute. reflexivity.
  - intros i. unfold fixed. lia.
Defined.

(** ** The example program *)

Lemma example_parameters (random : string) :
  let m1 := fst (WritePart "parameters" example_data
                   [("Content-Type", "application/xxx+json")] (New random [])) in
  Reachable m1 /\ reader m1 = None /\
  bodyBuffer m1 = bytes_of (example_head random) /\
  Boundary m1 = random /\
  closeBuffer m1 = bytes_of (example_tail random).
Proof.
  cbv zeta.
  assert (Hn : Reachable (New random [])) by exact (Reach_New random []).
  assert (Hr : Reachable (fst (WritePart "parameters" example_data
                   [("Content-Type", "application/xxx+json")] (New random []))))
    by exact (Reach_build (OpWritePart "parameters" example_data
                             [("Content-Type", "application/xxx+json")]) _ Hn).
  split; [exact Hr|].
  destruct (WritePart_frame "parameters" example_data
              [("Content-Type", "application/xxx+json")] (New random []))
    as (_ & Hcl & Hrd & _ & Hb).
  destruct (WritePart_ok "parameters" example_data
              [("Content-Type", "application/xxx+json")] (New random [])
              (Reachable_writer_ok _ Hn)) as (Hbody & _ & _).
  cbv zeta in Hbody.
  split; [rewrite Hrd; reflexivity|]. split; [|split].
  - rewrite Hbody. unfold part_header. rewrite WritePart_header_typed.
    change (src_bytes example_data) with (bytes_of example_json).
    change (bodyBuffer (New random [])) with (@nil ascii).
    change (delimiter (bodyWriter (New random []))) with ("--" +++ random +++ crlf).
    cbn [app]. rewrite <- bytes_of_app. f_equal. unfold example_head.
    change (quoted "parameters") with "parameters".
    rewrite !append_assoc. reflexivity.
  - unfold Boundary, multipart.Boundary. rewrite Hb. reflexivity.
  - rewrite Hcl. reflexivity.
Qed.



(** X17. The example program on a path that cannot be opened: [WriteFile]
    fails, the error is ignored, and the composer has no payload.  The
    copy receives the parameters part only and then panics in the call
    through the nil reader; the closing boundary is never written. *)
Theorem example_main_missing_file (random path : string) (w : World) (n : nat) :
  map_lookup path (fs w) = None ->
  let w' := fst (example_main random path w) in
  let ms := snd (example_main random path w) in
  w' = w /\ reader ms = None /\
  exists j,
    let run := ReadAll (requests (fixed (S n)) j) {| st_heap := heap w'; st_ms := ms |}
                 (GetReader ms) in
    run_status run = Panicked /\
    run_out run = bytes_of (example_head random).
Proof.
  intros Hl.
  destruct (example_parameters random) as (_ & Hrd & Hbody & _ & _).
  cbv zeta in *. unfold example_main.
  set (m1 := fst (WritePart "parameters" example_data
                    [("Content-Type", "application/xxx+json")] (New random []))) in *.
  pose proof (WriteFile_cases "file" path w m1) as H. rewrite Hl in H.
  rewrite H. cbn [fst snd]. split; [reflexivity|]. split; [exact Hrd|].
  assert (Hs : GetReader m1 = NopCloser nil_stream).
  { unfold GetReader, MultiReader_of, nil_stream. rewrite Hrd. reflexivity. }
  rewrite Hs, <- Hbody.
  apply (nil_payload_panics (List.length (bodyBuffer m1)) (heap w) m1 (fixed (S n))); auto.
  intros i. unfold fixed. lia.
Qed.

Lemma example_main_missing_file_witness :
  let w' := fst (example_main "R" "/no/such/file" upload_world) in
  let ms := snd (example_main "R" "/no/such/file" upload_world) in
  w' = upload_world /\ reader ms = None /\
  exists j,
    let run := ReadAll (requests (fixed (S 511)) j) {| st_heap := heap w'; st_ms := ms |}
                 (GetReader ms) in
    run_status run = Panicked /\
    run_out run = bytes_of (example_head "R").
Proof.
  apply (example_main_missing_file "R" "/no/such/file" upload_world 511).
  reflexivity.
Defined.

(** ** The order of a headers map does not matter *)

Lemma leb_iff (a b : string) :
  String.leb a b = true <-> a = b \/ String_as_OT.lt a b.
Proof.
  unfold String.leb.
  destruct (String.compare a b) eqn:E.
  - apply String_as_OT.cmp_eq in E. tauto.
  - apply String_as_OT.cmp_lt in E. tauto.
  - split; [discriminate|]. intros [H|H].
    + apply String_as_OT.cmp_eq in H. unfold String_as_OT.cmp in H. congruence.
    + apply String_as_OT.cmp_lt in H. unfold String_as_OT.cmp in H. congruence.
Qed.

Lemma leb_trans (a b c : string) :
  String.leb a b = true -> String.leb b c = true -> String.leb a c = true.
Proof.
  rewrite !leb_iff. intros [->|H1] [->|H2]; auto.
  right. eapply String_as_OT.lt_trans; eauto.
Qed.

Lemma leb_refl (a : string) : String.leb a a = true.
Proof. apply leb_iff. auto. Qed.

Lemma insert_perm (x : string) (l : list string) :
  Permutation (sort.insert x l) (x :: l).
Proof.
  induction l as [|y l IH]; simpl; [reflexivity|].
  destruct (String.leb x y); [reflexivity|].
  rewrite IH. apply perm_swap.
Qed.

Lemma Strings_perm (l : list string) : Permutation (sort.Strings l) l.
Proof.
  unfold sort.Strings. induction l as [|x l IH]; simpl; [reflexivity|].
  rewrite insert_perm. constructor. exact IH.
Qed.

Lemma insert_sorted (x : string) (l : list string) :
  StronglySorted le_str l -> StronglySorted le_str (sort.insert x l).
Proof.
  induction 1 as [|y l Hs IH Hall]; simpl.
  - constructor; constructor.
  - destruct (String.leb x y) eqn:E.
    + constructor; [constructor; assumption|].
      constructor; [exact E|].
      eapply Forall_impl; [|exact Hall]. intros z Hz.
      unfold le_str in *. eapply leb_trans; eauto.
    + constructor; [exact IH|].
      assert (Hyx : le_str y x).
      { unfold le_str. destruct (String.leb_total x y); congruence. }
      rewrite Forall_forall in *. intros z Hz.
      apply (Permutation_in _ (insert_perm x l)) in Hz.
      destruct Hz as [<-|Hz]; auto.
Qed.

Lemma Strings_sorted (l : list string) : StronglySorted le_str (sort.Strings l).
Proof.
  unfold sort.Strings. induction l as [|x l IH]; simpl; [constructor|].
  apply insert_sorted. exact IH.
Qed.

Lemma sorted_perm_eq (l : list string) :
  forall l', StronglySorted le_str l -> StronglySorted le_str l' ->
  Permutation l l' -> l = l'.
Proof.
  induction l as [|a l IH]; intros l' Hs Hs' Hp.
  - apply Permutation_nil in Hp. congruence.
  - destruct l' as [|b l'].
    + apply Permutation_sym, Permutation_nil in Hp. discriminate.
    + inversion Hs as [|? ? Hsl Ha]; subst. inversion Hs' as [|? ? Hsl' Hb]; subst.
      assert (Hab : a = b).
      { rewrite Forall_forall in Ha, Hb.
        assert (Hin1 : In a (b :: l')) by (eapply Permutation_in; [exact Hp | left; reflexivity]).
        assert (Hin2 : In b (a :: l))
          by (eapply Permutation_in; [apply Permutation_sym; exact Hp | left; reflexivity]).
        destruct Hin1 as [->|Hin1]; [reflexivity|].
        destruct Hin2 as [->|Hin2]; [reflexivity|].
        apply String.leb_antisym; [apply Ha; exact Hin2 | apply Hb; exact Hin1]. }
      subst b. f_equal. apply IH; auto.
      eapply Permutation_cons_inv; eauto.
Qed.

Lemma Strings_of_perm (l l' : list string) :
  Permutation l l' -> sort.Strings l = sort.Strings l'.
Proof.
  intros Hp. apply sorted_perm_eq; try apply Strings_sorted.
  rewrite !Strings_perm. exact Hp.
Qed.

Lemma header_lines_same (h h' : textproto.MIMEHeader) :
  same_headers h h' -> multipart.header_lines h = multipart.header_lines h'.
Proof.
  intros (Hl & Hk & Hn & Hn'). unfold multipart.header_lines.
  rewrite (Strings_of_perm (textproto.keys h) (textproto.keys h'))
    by (apply NoDup_Permutation; auto).
  f_equal. apply flat_map_ext. intros k. rewrite Hl. reflexivity.
Qed.

Lemma keys_assign_iff (k k' : string) (vs : list string) (h : textproto.MIMEHeader) :
  In k (textproto.keys (textproto.assign k' vs h)) <-> k = k' \/ In k (textproto.keys h).
Proof.
  unfold textproto.keys.
  induction h as [|[k0 vs0] h IH]; simpl.
  - intuition congruence.
  - destruct (String.eqb_spec k' k0) as [->|Hne]; simpl.
    + intuition congruence.
    + rewrite IH. intuition congruence.
Qed.

Lemma keys_assign_NoDup (k' : string) (vs : list string) (h : textproto.MIMEHeader) :
  NoDup (textproto.keys h) -> NoDup (textproto.keys (textproto.assign k' vs h)).
Proof.
  induction h as [|[k0 vs0] h IH]; simpl; intros Hn.
  - constructor; [intros []|constructor].
  - inversion Hn as [|? ? Hnotin Hn']; subst.
    destruct (String.eqb_spec k' k0) as [->|Hne]; simpl.
    + constructor; assumption.
    + constructor; [|apply IH; exact Hn'].
      intros Hin. apply keys_assign_iff in Hin. destruct Hin as [->|Hin]; auto.
Qed.

Lemma lookup_assign (k k' : string) (vs : list string) (h : textproto.MIMEHeader) :
  textproto.lookup k (textproto.assign k' vs h) =
  if String.eqb k' k then vs else textproto.lookup k h.
Proof.
  destruct (String.eqb k' k) eqn:E.
  - apply String.eqb_eq in E. subst. apply lookup_assign_same.
  - apply lookup_assign_other. exact E.
Qed.

Lemma assign_same_headers (k : string) (vs : list string) (h h' : textproto.MIMEHeader) :
  same_headers h h' -> same_headers (textproto.assign k vs h) (textproto.assign k vs h').
Proof.
  intros (Hl & Hk & Hn & Hn'). repeat split.
  - intros k0. rewrite !lookup_assign, Hl. reflexivity.
  - rewrite !keys_assign_iff, Hk. tauto.
  - rewrite !keys_assign_iff, Hk. tauto.
  - apply keys_assign_NoDup; assumption.
  - apply keys_assign_NoDup; assumption.
Qed.

Lemma assign_swap (k1 k2 : string) (v1 v2 : list string) (h h' : textproto.MIMEHeader) :
  k1 <> k2 -> same_headers h h' ->
  same_headers (textproto.assign k1 v1 (textproto.assign k2 v2 h))
               (textproto.assign k2 v2 (textproto.assign k1 v1 h')).
Proof.
  intros Hne (Hl & Hk & Hn & Hn'). repeat split.
  - intros k0. rewrite !lookup_assign, Hl.
    destruct (String.eqb_spec k1 k0), (String.eqb_spec k2 k0); congruence.
  - rewrite !keys_assign_iff, Hk. tauto.
  - rewrite !keys_assign_iff, Hk. tauto.
  - do 2 apply keys_assign_NoDup; assumption.
  - do 2 apply keys_assign_NoDup; assumption.
Qed.

Section RangeOrder.

Variable V : Type.
Variable show : V -> string.

Lemma set_all_same (headers : list (string * V)) :
  forall h h', same_headers h h' ->
  same_headers
    (fold_left (fun h kv => textproto.Set_ (fst kv) (show (snd kv)) h) headers h)
    (fold_left (fun h kv => textproto.Set_ (fst kv) (show (snd kv)) h) headers h').
Proof.
  induction headers as [|[k v] headers IH]; intros h h' Hs; [exact Hs|].
  apply IH. apply assign_same_headers. exact Hs.
Qed.

Lemma set_all_perm (headers headers' : list (string * V)) :
  Permutation headers headers' ->
  NoDup (canonical_keys headers) ->
  forall h h', same_headers h h' ->
  same_headers
    (fold_left (fun h kv => textproto.Set_ (fst kv) (show (snd kv)) h) headers h)
    (fold_left (fun h kv => textproto.Set_ (fst kv) (show (snd kv)) h) headers' h').
Proof.
  induction 1 as [| x l l' Hp IH | x y l | l l' l'' Hp1 IH1 Hp2 IH2];
    intros Hnd h h' Hs.
  - exact Hs.
  - inversion Hnd; subst. cbn [fold_left]. apply IH; auto.
    apply assign_same_headers. exact Hs.
  - inversion Hnd as [|? ? Hnotin Hnd']; subst.
    cbn [fold_left]. apply set_all_same. unfold textproto.Set_.
    apply assign_swap; auto.
    intros E. apply Hnotin. left. exact E.
  - assert (Hnd' : NoDup (canonical_keys l')).
    { unfold canonical_keys in *.
      eapply Permutation_NoDup; [apply Permutation_map; exact Hp1 | exact Hnd]. }
    destruct Hs as (Hl & Hk & Hn & Hn').
    assert (Hrefl : same_headers h' h') by (repeat split; auto; tauto).
    pose proof (IH1 Hnd h h' (conj Hl (conj Hk (conj Hn Hn')))) as H1.
    pose proof (IH2 Hnd' h' h' Hrefl) as H2.
    destruct H1 as (A1 & A2 & A3 & A4), H2 as (B1 & B2 & B3 & B4).
    repeat split; auto.
    + intros k. rewrite A1. apply B1.
    + intros Hin. apply B2, A2, Hin.
    + intros Hin. apply A2, B2, Hin.
Qed.

End RangeOrder.

Lemma CreatePart_lines (h h' : textproto.MIMEHeader) (w : multipart.Writer)
    (out : bytes.Buffer) :
  multipart.header_lines h = multipart.header_lines h' ->
  multipart.CreatePart h w out = multipart.CreatePart h' w out.
Proof. intros E. unfold multipart.CreatePart. rewrite E. reflexivity. Qed.

Lemma disposition_alone (v : string) :
  same_headers (textproto.Set_ "Content-Disposition" v textproto.make)
               (textproto.Set_ "Content-Disposition" v textproto.make).
Proof.
  rewrite Set_disposition_make. repeat split; try tauto;
    (constructor; [intros [] | constructor]).
Qed.

Lemma map_lookup_perm {V : Type} (k : string) (l l' : list (string * V)) :
  Permutation l l' -> NoDup (map fst l) -> map_lookup k l = map_lookup k l'.
Proof.
  induction 1 as [| [k0 v0] l l' Hp IH | [k1 v1] [k2 v2] l | l l' l'' Hp1 IH1 Hp2 IH2];
    intros Hnd.
  - reflexivity.
  - inversion Hnd; subst. simpl. rewrite IH by assumption. reflexivity.
  - inversion Hnd as [|? ? Hnotin Hnd']; subst. simpl in *.
    destruct (String.eqb_spec k k1), (String.eqb_spec k k2); try reflexivity.
    subst. exfalso. apply Hnotin. left. reflexivity.
  - rewrite IH1 by assumption. apply IH2.
    eapply Permutation_NoDup; [apply Permutation_map; exact Hp1 | exact Hnd].
Qed.

Lemma canonical_keys_raw {V : Type} (l : list (string * V)) :
  NoDup (canonical_keys l) -> NoDup (map fst l).
Proof.
  unfold canonical_keys. intros H.
  apply (NoDup_map_inv textproto.CanonicalMIMEHeaderKey).
  rewrite map_map. exact H.
Qed.

(** X18. The part [WritePart] writes does not depend on the order in which
    Go ranges over the headers map, provided no two of its keys have the
    same canonical form: the header lines are written in sorted key
    order. *)
Theorem WritePart_ignores_range_order (fieldname : string) (data : CopySource)
    (headers headers' : list (string * string)) (m : MultipartStreamer) :
  Permutation headers headers' ->
  NoDup (canonical_keys headers) ->
  WritePart fieldname data headers m = WritePart fieldname data headers' m.
Proof.
  intros Hp Hnd. unfold WritePart.
  rewrite (CreatePart_lines _
             (fold_left (fun h kv => textproto.Set_ (fst kv) (snd kv) h) headers'
                (textproto.Set_ "Content-Disposition"
                   ("form-data; name=" +++ dq +++ escapeQuotes fieldname +++ dq)
                   textproto.make))).
  - reflexivity.
  - apply header_lines_same.
    apply (set_all_perm string (fun v => v) headers headers' Hp Hnd).
    apply disposition_alone.
Qed.

Lemma WritePart_ignores_range_order_witness :
  WritePart "p" {| src_bytes := bytes_of "v"; src_err := NoErr |}
    [("Content-Type", "text/plain"); ("X-Id", "7")] (New "R" []) =
  WritePart "p" {| src_bytes := bytes_of "v"; src_err := NoErr |}
    [("X-Id", "7"); ("Content-Type", "text/plain")] (New "R" []).
Proof.
  apply (WritePart_ignores_range_order "p" {| src_bytes := bytes_of "v"; src_err := NoErr |}
           [("Content-Type", "text/plain"); ("X-Id", "7")]
           [("X-Id", "7"); ("Content-Type", "text/plain")] (New "R" [])).
  - apply perm_swap.
  - vm_compute. constructor.
    + intros [H|[]]. discriminate H.
    + constructor; [intros [] | constructor].
Defined.

(** X19. The same holds for [WriteReaderWithHeaders]: whether it returns or
    panics, the length it stores and the part it writes do not depend on
    the order in which the headers map is ranged over, provided no two keys
    have the same canonical form. *)
Theorem WriteReaderWithHeaders_ignores_range_order (key filename : string)
    (r : ReaderRef) (headers headers' : list (string * any)) (m : MultipartStreamer) :
  Permutation headers headers' ->
  NoDup (canonical_keys headers) ->
  WriteReaderWithHeaders key filename r headers m =
  WriteReaderWithHeaders key filename r headers' m.
Proof.
  intros Hp Hnd. unfold WriteReaderWithHeaders.
  rewrite <- (map_lookup_perm "Content-Length" headers headers' Hp
                (canonical_keys_raw headers Hnd)).
  destruct (map_lookup "Content-Length" headers) as [[n| | | | |]|]; try reflexivity.
  rewrite (CreatePart_lines _
             (fold_left (fun h kv => textproto.Set_ (fst kv) (fmt.Sprint_v (snd kv)) h)
                headers'
                (textproto.Set_ "Content-Disposition"
                   ("form-data; name=" +++ dq +++ escapeQuotes key +++ dq +++
                    "; filename=" +++ dq +++ escapeQuotes filename +++ dq)
                   textproto.make))).
  - reflexivity.
  - apply header_lines_same.
    apply (set_all_perm any fmt.Sprint_v headers headers' Hp Hnd).
    apply disposition_alone.
Qed.

Lemma WriteReaderWithHeaders_ignores_range_order_witness :
  WriteReaderWithHeaders "f" "a.txt" (Some 0)
    [("Content-Length", AInt64 5); ("X-Id", AInt 7)] (New "R" []) =
  WriteReaderWithHeaders "f" "a.txt" (Some 0)
    [("X-Id", AInt 7); ("Content-Length", AInt64 5)] (New "R" []).
Proof.
  apply (WriteReaderWithHeaders_ignores_range_order "f" "a.txt" (Some 0)
           [("Content-Length", AInt64 5); ("X-Id", AInt 7)]
           [("X-Id", AInt 7); ("Content-Length", AInt64 5)] (New "R" [])).
  - apply perm_swap.
  - vm_compute. constructor.
    + intros [H|[]]. discriminate H.
    + constructor; [intros [] | constructor].
Defined.
